(** * Sett11/sketches: the kad.arbitr.ru harvester

    A shallow embedding of the JavaScript harvester (the cookie extractor
    [CookieExtractor] with its entry point, the crawler [PuppeteerParser],
    the command line parser [parseArgs] and the command dispatcher [main])
    and the properties of its specification that can be settled on it,
    followed by further properties of the code.

    Conventions of the embedding.
    - A JavaScript string is a Rocq [string] holding its UTF-8 bytes, so the
      Cyrillic keywords of the source are written as they are.  On well-formed
      UTF-8 a byte-wise substring test agrees with [String.prototype.includes].
    - A property that may be [undefined] or [null] is an [option]; JavaScript
      truthiness is written out ([truthy]): the empty string is falsy.
    - A calendar date is the number of days since 1970-01-01 (a [Z]); an
      instant is a number of milliseconds since the epoch.
    - Everything the program gets from its environment (the portal's answers,
      the outcome of a download, the clock, the file system) is a field of an
      environment record; the program's observable actions are collected in a
      trace of events. *)

From Stdlib Require Import ZArith Lia String List Ascii Bool.
From stdpp Require Import gmap strings list sorting pretty.
From Equations Require Import Equations.

Open Scope Z_scope.

(** ** JavaScript values and string operations *)

Module Js.

(** [!!s] for a string. *)
Definition truthy_string (s : string) : bool :=
  match s with
  | EmptyString => false
  | String _ _ => true
  end.

(** [!!x] for a property holding a string, [undefined] or [null]. *)
Definition truthy (x : option string) : bool :=
  match x with
  | Some s => truthy_string s
  | None => false
  end.

(** [x || d] where [x] is a string-valued property. *)
Definition or_else (x : option string) (d : string) : string :=
  match x with
  | Some s => if truthy_string s then s else d
  | None => d
  end.

(** [kw] is a prefix of [text]. *)
Fixpoint starts_with (kw text : string) : bool :=
  match kw, text with
  | EmptyString, _ => true
  | String a kw', String b text' => if Ascii.eqb a b then starts_with kw' text' else false
  | String _ _, EmptyString => false
  end.

(** [text.includes(kw)]. *)
Fixpoint includes (kw text : string) : bool :=
  starts_with kw text ||
  match text with
  | EmptyString => false
  | String _ text' => includes kw text'
  end.

(** [l.some(p)]. *)
Definition some {A} (p : A → bool) (l : list A) : bool := existsb p l.

(** [s.substring(0, n)] (on bytes). *)
Fixpoint take_string (n : nat) (s : string) : string :=
  match n, s with
  | O, _ => EmptyString
  | S _, EmptyString => EmptyString
  | S n', String c s' => String c (take_string n' s')
  end.

(** Lower-casing of one Basic Latin byte. *)
Definition lower_ascii (c : ascii) : ascii :=
  let n := N_of_ascii c in
  if ((65 <=? n) && (n <=? 90))%N then ascii_of_N (n + 32) else c.

(** Lower-casing of the two-byte UTF-8 sequence [0xD0 b], which holds the
    code points U+0400..U+043F: the capital letters U+0400..U+040F map to
    U+0450..U+045F ([0xD1 (b+0x10)]), U+0410..U+041F to U+0430..U+043F
    ([0xD0 (b+0x20)]) and U+0420..U+042F to U+0440..U+044F
    ([0xD1 (b-0x20)]). *)
Definition lower_d0 (b : ascii) : ascii * ascii :=
  let n := N_of_ascii b in
  if ((128 <=? n) && (n <=? 143))%N then (ascii_of_N 209, ascii_of_N (n + 16))
  else if ((144 <=? n) && (n <=? 159))%N then (ascii_of_N 208, ascii_of_N (n + 32))
  else if ((160 <=? n) && (n <=? 175))%N then (ascii_of_N 209, ascii_of_N (n - 32))
  else (ascii_of_N 208, b).

(** [s.toLowerCase()] on the alphabets the portal uses: Basic Latin and the
    Russian part of the Cyrillic block; every other byte is kept.  The
    general properties below use nothing of it; the concrete runs do. *)
Fixpoint toLowerCase (s : string) : string :=
  match s with
  | EmptyString => EmptyString
  | String c rest =>
      if (N_of_ascii c =? 208)%N then
        match rest with
        | EmptyString => String c EmptyString
        | String b rest' =>
            let '(c1, c2) := lower_d0 b in
            String c1 (String c2 (toLowerCase rest'))
        end
      else String (lower_ascii c) (toLowerCase rest)
  end.

(** An exception-or-value result: [Threw msg] is a thrown [Error] with that
    message (a rejected promise for an [async] function). *)
Inductive Completion (A : Type) : Type :=
| Threw (msg : string)
| Returned (v : A).
Arguments Threw {A} msg.
Arguments Returned {A} v.

#[global] Instance completion_ret : MRet Completion := fun A v => Returned v.

#[global] Instance completion_bind : MBind Completion := fun A B k c =>
  match c with
  | Threw msg => Threw msg
  | Returned v => k v
  end.

(** [try { body } catch (error) { handler(error.message) }]. *)
Definition try_catch {A} (body : Completion A) (handler : string → Completion A) : Completion A :=
  match body with
  | Threw msg => handler msg
  | Returned v => Returned v
  end.

End Js.

(** ** Calendar arithmetic of the [Date] object

    The proleptic Gregorian calendar of ECMAScript: [days_from_civil] is
    [MakeDay] (day number of a year, month 1..12 and day of month) and
    [civil_from_days] its inverse ([YearFromTime], [MonthFromTime],
    [DateFromTime]). *)

Module Calendar.

Definition msPerDay : Z := 86400000.
Definition msPerMinute : Z := 60000.

(** A calendar date [(year, month, day)]: the text [YYYY-MM-DD]. *)
Definition YMD : Type := Z * Z * Z.

Definition days_from_civil (date : YMD) : Z :=
  let '(y, m, d) := date in
  let y' := if m <=? 2 then y - 1 else y in
  let era := y' / 400 in
  let yoe := y' - era * 400 in
  let doy := (153 * (if 2 <? m then m - 3 else m + 9) + 2) / 5 + d - 1 in
  let doe := yoe * 365 + yoe / 4 - yoe / 100 + doy in
  era * 146097 + doe - 719468.

Definition civil_from_days (z : Z) : YMD :=
  let z' := z + 719468 in
  let era := z' / 146097 in
  let doe := z' - era * 146097 in
  let yoe := (doe - doe / 1460 + doe / 36524 - doe / 146096) / 365 in
  let doy := doe - (365 * yoe + yoe / 4 - yoe / 100) in
  let mp := (5 * doy + 2) / 153 in
  let d := doy - (153 * mp + 2) / 5 + 1 in
  let m := if mp <? 10 then mp + 3 else mp - 9 in
  (yoe + era * 400 + (if m <=? 2 then 1 else 0), m, d).

(** The host: the instant [new Date()] returns and the offset of its local
    time from UTC in minutes (local = UTC + offset; a fixed-offset zone). *)
Record Host := { nowMs : Z; tzOffsetMinutes : Z }.

(** [d.toISOString().split('T')[0]]: the UTC calendar date of an instant. *)
Definition toISODate (ms : Z) : YMD := civil_from_days (ms / msPerDay).

(** [new Date('YYYY-MM-DD').getTime()]: a date-only text is UTC midnight. *)
Definition parseISODate (date : YMD) : Z := days_from_civil date * msPerDay.

(** [d.getFullYear()]: the year of the local calendar date. *)
Definition getFullYear (h : Host) (ms : Z) : Z :=
  let '(y, _, _) := civil_from_days ((ms + tzOffsetMinutes h * msPerMinute) / msPerDay) in y.

(** [new Date(year, monthIndex, day).getTime()]: local midnight of that
    date; a year in 0..99 stands for 1900 + year. *)
Definition newDateLocal (h : Host) (year monthIndex day : Z) : Z :=
  let year' := if (0 <=? year) && (year <=? 99) then 1900 + year else year in
  days_from_civil (year', monthIndex + 1, day) * msPerDay - tzOffsetMinutes h * msPerMinute.

End Calendar.

(** ** CookieExtractor (cookie_extractor.js) *)

Module CookieExtractor.
Import Js Calendar.

(** An argument of [getApiDates] as [new Date(arg)] sees it. *)
Inductive DateArg :=
| ArgMissing            (* null, undefined, '' or another falsy value *)
| ArgInvalid            (* [new Date(arg)] is an Invalid Date *)
| ArgInstant (ms : Z).  (* [new Date(arg).getTime()] *)

Record ApiDates := { DateFrom : option YMD; DateTo : option YMD }.

Definition formatDate (date : DateArg) : option YMD :=
  match date with
  | ArgMissing => None
  | ArgInvalid => None
  | ArgInstant ms => Some (toISODate ms)
  end.

(** [a || b] on the results of [formatDate] (a date text is truthy). *)
Definition or_date (a b : option YMD) : option YMD :=
  match a with
  | Some d => Some d
  | None => b
  end.

Definition getApiDates (h : Host) (dateFrom dateTo : DateArg) : ApiDates :=
  let today := nowMs h in
  let defaultFrom := newDateLocal h (getFullYear h today) 0 1 in
  let defaultTo := today in
  let fromDate := or_date (formatDate dateFrom) (formatDate (ArgInstant defaultFrom)) in
  let toDate := or_date (formatDate dateTo) (formatDate (ArgInstant defaultTo)) in
  match fromDate, toDate with
  | Some f, Some t =>
      if parseISODate t <? parseISODate f
      then {| DateFrom := toDate; DateTo := fromDate |}
      else {| DateFrom := fromDate; DateTo := toDate |}
  | _, _ => {| DateFrom := fromDate; DateTo := toDate |}
  end.

Record CriticalCookie := { found : bool; description : string; value : string }.

Record Validation := {
  isValid : bool;
  errors : list string;
  warnings : list string;
  foundCookies : list string;
  criticalCookies : gmap string CriticalCookie
}.

(** The [criticalCookies] table of [validateCookies], in its key order. *)
Definition criticalCookieTable : list (string * string) :=
  [ ("pr_fp", "Основной fingerprint cookie");
    ("wasm", "WebAssembly токен (опциональный)");
    ("PHPSESSID", "PHP сессия (опциональный)");
    ("ASP.NET_SessionId", "ASP.NET сессия (опциональный)") ].

Definition missingCritical (cookieName description : string) : string :=
  "Отсутствует критически важный cookie: " +:+ cookieName +:+ " (" +:+ description +:+ ")".

Definition missingOptional (cookieName description : string) : string :=
  "Отсутствует опциональный cookie: " +:+ cookieName +:+ " (" +:+ description +:+ ")".

Definition fewCookies (total : nat) : string :=
  "Мало cookies (" +:+ pretty total +:+ "), возможно anti-bot защита активна".

(** One turn of the loop over the table. *)
Definition checkCookie (cookies : gmap string string) (v : Validation)
    (entry : string * string) : Validation :=
  let '(cookieName, descr) := entry in
  if truthy (cookies !! cookieName) then
    let cookieValue := or_else (cookies !! cookieName) "" in
    {| isValid := isValid v; errors := errors v; warnings := warnings v;
       foundCookies := foundCookies v;
       criticalCookies :=
         <[cookieName := {| found := true; description := descr;
                            value := take_string 20 cookieValue +:+ "..." |}]>
           (criticalCookies v) |}
  else if String.eqb cookieName "pr_fp" then
    {| isValid := false; errors := errors v ++ [missingCritical cookieName descr];
       warnings := warnings v; foundCookies := foundCookies v;
       criticalCookies := criticalCookies v |}
  else
    {| isValid := isValid v; errors := errors v;
       warnings := warnings v ++ [missingOptional cookieName descr];
       foundCookies := foundCookies v; criticalCookies := criticalCookies v |}.

(** [validateCookies()] on [this.extracted_cookies] (the enumeration order of
    [foundCookies] is the map's, not the insertion order). *)
Definition validateCookies (cookies : gmap string string) : Validation :=
  let v0 := {| isValid := true; errors := []; warnings := [];
               foundCookies := (map_to_list cookies).*1; criticalCookies := ∅ |} in
  let v1 := foldl (checkCookie cookies) v0 criticalCookieTable in
  let totalCookies := size cookies in
  if (totalCookies <? 5)%nat then
    {| isValid := isValid v1; errors := errors v1;
       warnings := warnings v1 ++ [fewCookies totalCookies];
       foundCookies := foundCookies v1; criticalCookies := criticalCookies v1 |}
  else v1.

(** What one turn of the loop adds to the errors and to the warnings, and
    whether it leaves [isValid] as it is. *)
Definition errorFor (cookies : gmap string string) (entry : string * string) : list string :=
  if truthy (cookies !! entry.1) then []
  else if String.eqb entry.1 "pr_fp" then [missingCritical entry.1 entry.2] else [].

Definition warningFor (cookies : gmap string string) (entry : string * string) : list string :=
  if truthy (cookies !! entry.1) then []
  else if String.eqb entry.1 "pr_fp" then [] else [missingOptional entry.1 entry.2].

Definition passes (cookies : gmap string string) (entry : string * string) : bool :=
  truthy (cookies !! entry.1) || negb (String.eqb entry.1 "pr_fp").

(** The error that names the primary token. *)
Definition prFpMissing : string := missingCritical "pr_fp" "Основной fingerprint cookie".

End CookieExtractor.

(** ** PuppeteerParser (puppeteer_parser.js) *)

Module PuppeteerParser.
Import Js.

(** One row of the portal's answer; every property may be missing. *)
Record SearchDoc := {
  CaseNumber : option string;
  Title : option string;
  Date : option string;
  DocumentUrl : option string
}.

(** The request body.  Only [Page], [DateFrom] and [DateTo] vary; the other
    fields are the constants of the source ([Count: 25], empty filters,
    [WithVKSInstances: false], [DateType: 0]). *)
Record SearchParams := { Page : Z; DateFrom : Z; DateTo : Z }.

#[global] Instance SearchParams_eq_dec : EqDecision SearchParams.
Proof. solve_decision. Defined.

(** The parsed JSON answer: [null], an object whose [data] is missing or
    falsy, or an object with a [data] array. *)
Inductive ResponseBody :=
| BodyNull
| BodyNoData
| BodyData (data : list SearchDoc).

(** What the navigation and the in-page [fetch] come to: a rejection (the
    30 s navigation timeout, a network failure, an unparsable body) or an
    HTTP response. *)
Inductive FetchResult :=
| FetchRejected (msg : string)
| HttpResponse (status : Z) (statusText : string) (body : ResponseBody).

(** An entry of [results], which becomes [documents] of metadata.json. *)
Record ResultEntry := {
  caseNumber : option string;
  title : option string;
  date : option string;
  url : option string;
  filepath : string
}.

(** The environment of a run.  [portal] answers a search request (a run
    sends no request twice, so the answer is taken to depend on the request
    alone); [download t u f] is what [downloadPDF(u, f)] returns when called
    at logical time [t] (the number of events so far): the saved path, or
    [None] for the [null] of a failed download; [clock t] is [Date.now()]
    at time [t].  The pacing waits ([waitForTimeout]) are taken to return. *)
Record Env := {
  docsDirExists : bool;
  portal : SearchParams → FetchResult;
  download : nat → string → string → option string;
  clock : nat → Z
}.

(** The observable actions of [processDateRange], in order. *)
Inductive Event :=
| EvMkdirDocs
| EvPeriod (dateFrom dateTo : Z)
| EvSearch (params : SearchParams)
| EvPageEmpty (page : Z)
| EvSkip (doc : SearchDoc)
| EvDownload (doc : SearchDoc) (filename : string) (saved : option string)
| EvWait (ms : Z)
| EvPeriodError (msg : string)
| EvWriteMetadata (processed_at : Z) (total_documents : nat) (documents : list ResultEntry).

Record State := { trace : list Event; results : list ResultEntry }.

Definition initial : State := {| trace := []; results := [] |}.

Definition emit (e : Event) (st : State) : State :=
  {| trace := trace st ++ [e]; results := results st |}.

(** [results.push(entry)]. *)
Definition push (entry : ResultEntry) (st : State) : State :=
  {| trace := trace st; results := results st ++ [entry] |}.

(** [response.ok]. *)
Definition ok (status : Z) : bool := (200 <=? status) && (status <=? 299).

(** [searchDocuments(searchParams)]: rethrows every failure. *)
Definition searchDocuments (env : Env) (params : SearchParams) : Completion ResponseBody :=
  match portal env params with
  | FetchRejected msg => Threw msg
  | HttpResponse status statusText body =>
      if ok status then Returned body
      else Threw ("HTTP " +:+ pretty status +:+ ": " +:+ statusText)
  end.

Definition excludeKeywords : list string :=
  ["перенос"; "отложение"; "назначение"; "включение в реестр"].

Definition includeKeywords : list string :=
  ["решение"; "кассация"; "определение"].

Definition docText (doc : SearchDoc) : string :=
  toLowerCase (or_else (CaseNumber doc) "" +:+ " " +:+ or_else (Title doc) "").

Definition shouldExclude (doc : SearchDoc) : bool :=
  some (fun keyword => includes keyword (docText doc)) excludeKeywords.

Definition shouldInclude (doc : SearchDoc) : bool :=
  some (fun keyword => includes keyword (docText doc)) includeKeywords.

Definition pdfName (env : Env) (t : nat) (doc : SearchDoc) : string :=
  or_else (CaseNumber doc) "unknown" +:+ "_" +:+ pretty (clock env t) +:+ ".pdf".

(** The body of [for (const doc of response.data)]. *)
Definition processDoc (env : Env) (st : State) (doc : SearchDoc) : State :=
  if shouldExclude doc then emit (EvSkip doc) st
  else if shouldInclude doc && truthy (DocumentUrl doc) then
    let t := length (trace st) in
    let filename := pdfName env t doc in
    let saved := download env t (or_else (DocumentUrl doc) "") filename in
    let st1 := emit (EvDownload doc filename saved) st in
    let st2 :=
      if truthy saved then
        push {| caseNumber := CaseNumber doc; title := Title doc; date := Date doc;
                url := DocumentUrl doc; filepath := or_else saved "" |} st1
      else st1 in
    emit (EvWait 1000) st2
  else st.

(** [response.data] when the answer carries a non-empty array; [[]] when the
    test [!response || !response.data || response.data.length === 0]
    holds. *)
Definition pageDocs (body : ResponseBody) : list SearchDoc :=
  match body with
  | BodyNull => []
  | BodyNoData => []
  | BodyData data => data
  end.

(** How one turn of the page loop ends. *)
Inductive PageStep :=
| PageBreak (st : State)
| PageThrew (st : State) (msg : string)
| PageNext (st : State).

(** The body of [for (let page = 1; page <= maxPages; page++)]. *)
Definition processPage (env : Env) (dateFrom dateTo page : Z) (st : State) : PageStep :=
  let params := {| Page := page; DateFrom := dateFrom; DateTo := dateTo |} in
  let st1 := emit (EvSearch params) st in
  match searchDocuments env params with
  | Threw msg => PageThrew st1 msg
  | Returned body =>
      match pageDocs body with
      | [] => PageBreak (emit (EvPageEmpty page) st1)
      | docs => PageNext (emit (EvWait 2000) (foldl (processDoc env) st1 docs))
      end
  end.

Equations? pagesLoop (env : Env) (dateFrom dateTo maxPages page : Z) (st : State)
    : State * option string by wf (Z.to_nat (maxPages - page + 1)) lt :=
  pagesLoop env dateFrom dateTo maxPages page st with decide (page <= maxPages) => {
    | right _ := (st, None);
    | left _ with processPage env dateFrom dateTo page st => {
        | PageBreak st' := (st', None);
        | PageThrew st' msg := (st', Some msg);
        | PageNext st' := pagesLoop env dateFrom dateTo maxPages (page + 1) st' } }.
Proof. lia. Qed.

(** The body of [while (currentDate <= endDateObj)] up to the assignment
    [currentDate = nextDate]: the step is two days, and the [catch] logs the
    failure of the window and goes on.  Dates are day numbers here, which is
    the loop on a host at a fixed offset from UTC; [Zoned] below has the
    loop on instants, for a host with any time zone. *)
Definition processWindow (env : Env) (maxPages currentDate : Z) (st : State) : State :=
  let nextDate := currentDate + 2 in
  match pagesLoop env currentDate nextDate maxPages 1 (emit (EvPeriod currentDate nextDate) st) with
  | (st', Some msg) => emit (EvPeriodError msg) st'
  | (st', None) => st'
  end.

Equations? datesLoop (env : Env) (maxPages endDate currentDate : Z) (st : State)
    : State by wf (Z.to_nat (endDate - currentDate + 1)) lt :=
  datesLoop env maxPages endDate currentDate st with decide (currentDate <= endDate) => {
    | left _ := datesLoop env maxPages endDate (currentDate + 2)
                  (processWindow env maxPages currentDate st);
    | right _ := st }.
Proof. lia. Qed.

(** [processDateRange(startDate, endDate, maxPages)] for two date-only
    arguments (UTC midnights; [setDate(getDate() + 2)] is then two days
    later in a fixed-offset zone); the final state holds the trace of the
    run and the returned [results]. *)
Definition processDateRange (env : Env) (startDate endDate maxPages : Z) : State :=
  let st0 := if docsDirExists env then initial else emit EvMkdirDocs initial in
  let st1 := datesLoop env maxPages endDate startDate st0 in
  emit (EvWriteMetadata (clock env (length (trace st1))) (length (results st1)) (results st1)) st1.

(** A parsed JSON text (numbers are the integers a ledger holds). *)
#[warnings="-register-all"] Inductive Json :=
| JNull
| JBool (b : bool)
| JNumber (n : Z)
| JString (s : string)
| JArray (items : list Json)
| JObject (fields : list (string * Json)).

(** [!!v]. *)
Definition truthy_json (v : Json) : bool :=
  match v with
  | JNull => false
  | JBool b => b
  | JNumber n => negb (n =? 0)
  | JString s => truthy_string s
  | JArray _ => true
  | JObject _ => true
  end.

(** [x || d] where [x] is a property that may be [undefined]. *)
Definition or_json (x : option Json) (d : Json) : Json :=
  match x with
  | Some v => if truthy_json v then v else d
  | None => d
  end.

(** The own property [key] of a parsed object (of a repeated key,
    [JSON.parse] keeps the last). *)
Definition field (key : string) (fields : list (string * Json)) : option Json :=
  foldl (fun found kv => if String.eqb (fst kv) key then Some (snd kv) else found) None fields.

(** [v.key]: reading a property of [null] throws a [TypeError]; a value
    that is not an object has no such property. *)
Definition getProp (v : Json) (key : string) : Completion (option Json) :=
  match v with
  | JNull => Threw ("Cannot read properties of null (reading '" +:+ key +:+ "')")
  | JObject fields => Returned (field key fields)
  | _ => Returned None
  end.

(** metadata.json as [getStats] finds it: absent, present but unreadable,
    or a text on which [JSON.parse] throws or returns a value. *)
Inductive MetadataFile :=
| FileAbsent
| FileUnreadable (msg : string)
| FileText (parsed : Completion Json).

Definition existsSync (file : MetadataFile) : bool :=
  match file with
  | FileAbsent => false
  | _ => true
  end.

(** [JSON.parse(fs.readFileSync(metadataPath, 'utf8'))]. *)
Definition readAndParse (file : MetadataFile) : Completion Json :=
  match file with
  | FileAbsent => Threw "ENOENT: no such file or directory"
  | FileUnreadable msg => Threw msg
  | FileText parsed => parsed
  end.

Record Stats := { total_documents : Json; last_update : Json }.

Definition noStats : Stats := {| total_documents := JNumber 0; last_update := JNull |}.

Definition getStats (file : MetadataFile) : Completion Stats :=
  try_catch
    (if negb (existsSync file) then mret noStats
     else
       metadata ← readAndParse file;
       total ← getProp metadata "total_documents";
       processed ← getProp metadata "processed_at";
       mret {| total_documents := or_json total (JNumber 0);
               last_update := or_json processed JNull |})
    (fun _ => mret noStats).

End PuppeteerParser.

(** ** The command dispatcher (puppeteer_main.js) *)

Module Cli.
Import Js PuppeteerParser.

(** The parsed command line: [args.command] and the options [main] reads. *)
Record Args := {
  command : option string;
  cookies_file : option string;
  params : option string;
  start_date : option string;
  end_date : option string;
  max_pages : option string
}.

(** What [init()] comes to: it returns; [puppeteer.launch] rejects, leaving
    [this.browser] null; or a later step rejects when the browser is set. *)
Inductive InitOutcome :=
| InitOk
| LaunchRejected (msg : string)
| PageSetupRejected (msg : string).

(** The [data] of a printed object. *)
Inductive Data :=
| DataSearch (body : ResponseBody)
| DataResults (documents : list ResultEntry)
| DataStats (stats : Stats).

(** The outcomes of the parser's methods in one invocation
    ([loadCookies] catches its failures and returns a boolean). *)
Record World := {
  initOutcome : InitOutcome;
  loadCookiesOutcome : bool;
  searchOutcome : Completion ResponseBody;
  processOutcome : Completion (list ResultEntry);
  metadataFile : MetadataFile;
  closeOutcome : Completion unit
}.

(** An object printed with [console.log(JSON.stringify(...))]. *)
Record JsonOut := {
  success : bool;
  data : option Data;
  error : option string;
  message : option string
}.

(** What an invocation leaves behind: the JSON objects printed to standard
    output, in order, and the exit code.  (The diagnostic lines that the
    parser prints with [console.log] are no JSON objects and are left out.) *)
Record Output := { objects : list JsonOut; exitCode : Z }.

Definition say (ok : bool) (msg : string) : JsonOut :=
  {| success := ok; data := None; error := None; message := Some msg |}.

Definition fail (msg : string) : JsonOut :=
  {| success := false; data := None; error := Some msg; message := None |}.

Definition give (d : Data) : JsonOut :=
  {| success := true; data := Some d; error := None; message := None |}.

(** [parser.init()]: whether [parser.browser] is set afterwards, and how the
    call completes. *)
Definition init (w : World) : bool * Completion unit :=
  match initOutcome w with
  | InitOk => (true, Returned ())
  | LaunchRejected msg => (false, Threw msg)
  | PageSetupRejected msg => (true, Threw msg)
  end.

(** The [switch] inside [try]: whether [parser.browser] is set when the
    block is left, and the objects it printed unless it threw.  A case is
    taken from where its parser has been constructed; [CliProcess] below
    has the constructor, which can throw. *)
Definition dispatch (w : World) (args : Args) (cmd : string) : bool * Completion (list JsonOut) :=
  if String.eqb cmd "init" then
    let '(browser, started) := init w in
    (browser, _ ← started; mret [say true "Браузер инициализирован"])
  else if String.eqb cmd "loadCookies" then
    let '(browser, started) := init w in
    (browser,
     _ ← started;
     if truthy (cookies_file args) then
       let loaded := loadCookiesOutcome w in
       mret [say loaded (if loaded then "Cookies загружены" else "Ошибка загрузки cookies")]
     else mret [fail "Не указан файл cookies"])
  else if String.eqb cmd "searchDocuments" then
    let '(browser, started) := init w in
    (browser,
     _ ← started;
     if truthy (params args) then
       result ← searchOutcome w;
       mret [give (DataSearch result)]
     else mret [fail "Не указаны параметры поиска"])
  else if String.eqb cmd "processDateRange" then
    let '(browser, started) := init w in
    (browser,
     _ ← started;
     if truthy (start_date args) && truthy (end_date args) then
       result ← processOutcome w;
       mret [give (DataResults result)]
     else mret [fail "Не указаны даты начала и окончания"])
  else if String.eqb cmd "getStats" then
    (false, stats ← getStats (metadataFile w); mret [give (DataStats stats)])
  else if String.eqb cmd "close" then
    (false, mret [say true "Браузер закрыт"])
  else
    (false, mret [fail ("Неизвестная команда: " +:+ cmd)]).

(** [main()] with its [try], [catch] and [finally], followed by the
    [main().catch(...)] of the start-up code: a rejection of [main] prints
    one more object and exits with code 1. *)
Definition main (w : World) (args : Args) : Output :=
  let cmd := or_else (command args) "help" in
  let '(browser, body) := dispatch w args cmd in
  let printed :=
    match body with
    | Returned out => out
    | Threw msg => [fail msg]
    end in
  match (if browser then closeOutcome w else Returned ()) with
  | Returned _ => {| objects := printed; exitCode := 0 |}
  | Threw msg => {| objects := printed ++ [fail msg]; exitCode := 1 |}
  end.

End Cli.

(** ** What a trace shows *)

Module Trace.
Import Js PuppeteerParser.

Definition periodOf (e : Event) : option (Z * Z) :=
  match e with EvPeriod a b => Some (a, b) | _ => None end.

Definition searchOf (e : Event) : option SearchParams :=
  match e with EvSearch p => Some p | _ => None end.

Definition downloadOf (e : Event) : option SearchDoc :=
  match e with EvDownload doc _ _ => Some doc | _ => None end.

Definition skipOf (e : Event) : option SearchDoc :=
  match e with EvSkip doc => Some doc | _ => None end.

Definition errorOf (e : Event) : option string :=
  match e with EvPeriodError msg => Some msg | _ => None end.

Definition writeOf (e : Event) : option (list ResultEntry) :=
  match e with EvWriteMetadata _ _ documents => Some documents | _ => None end.

(** The ledger entry of a download that succeeded. *)
Definition savedOf (e : Event) : option ResultEntry :=
  match e with
  | EvDownload doc _ saved =>
      if truthy saved then
        Some {| caseNumber := CaseNumber doc; title := Title doc; date := Date doc;
                url := DocumentUrl doc; filepath := or_else saved "" |}
      else None
  | _ => None
  end.

(** The windows announced, the requests sent, the documents handed to
    [downloadPDF], those skipped by an exclude keyword, the window failures
    logged, the ledgers written to metadata.json and the entries of the
    downloads that succeeded, each in the order of the run. *)
Definition periods (tr : list Event) : list (Z * Z) := omap periodOf tr.
Definition searches (tr : list Event) : list SearchParams := omap searchOf tr.
Definition downloads (tr : list Event) : list SearchDoc := omap downloadOf tr.
Definition skips (tr : list Event) : list SearchDoc := omap skipOf tr.
Definition failures (tr : list Event) : list string := omap errorOf tr.
Definition writes (tr : list Event) : list (list ResultEntry) := omap writeOf tr.
Definition saved (tr : list Event) : list ResultEntry := omap savedOf tr.


(** The message a request fails with, if it does. *)
Definition thrown (env : Env) (p : SearchParams) : option string :=
  match searchDocuments env p with
  | Threw msg => Some msg
  | Returned _ => None
  end.

(** The rows a request returns ([[]] when it fails). *)
Definition rowsOf (env : Env) (p : SearchParams) : list SearchDoc :=
  match searchDocuments env p with
  | Threw _ => []
  | Returned body => pageDocs body
  end.

(** A request is answered by a page that holds at least one row. *)
Definition hasRows (env : Env) (p : SearchParams) : bool :=
  match rowsOf env p with
  | [] => false
  | _ :: _ => true
  end.


(** A row reaches [downloadPDF]. *)
Definition reachesDownload (doc : SearchDoc) : bool :=
  negb (shouldExclude doc) && (shouldInclude doc && truthy (DocumentUrl doc)).

(** The prefix of [l] up to and including its first element at which
    [stop] holds. *)
Fixpoint upto_first {A} (stop : A → bool) (l : list A) : list A :=
  match l with
  | [] => []
  | x :: l' => if stop x then [x] else x :: upto_first stop l'
  end.

Definition request (dateFrom dateTo page : Z) : SearchParams :=
  {| Page := page; DateFrom := dateFrom; DateTo := dateTo |}.

(** The requests of the page loop entered at [page], and those of the
    window that starts at [dateFrom]. *)
Definition pageRequests (env : Env) (dateFrom dateTo maxPages page : Z) : list SearchParams :=
  upto_first (fun p => negb (hasRows env p))
    (request dateFrom dateTo <$> seqZ page (maxPages - page + 1)).

Definition windowRequests (env : Env) (maxPages dateFrom : Z) : list SearchParams :=
  pageRequests env dateFrom (dateFrom + 2) maxPages 1.

(** The windows of a run that is at [currentDate]. *)
Definition windowsFrom (currentDate endDate : Z) : list (Z * Z) :=
  (fun i => (currentDate + 2 * i, currentDate + 2 * i + 2)) <$>
    seqZ 0 ((endDate - currentDate) `div` 2 + 1).

(** The order of the requests of a run: by window, then by page. *)
Definition earlier (p q : SearchParams) : Prop :=
  DateFrom p < DateFrom q ∨ (DateFrom p = DateFrom q ∧ Page p < Page q).

(** [st'] is [st] after the events [Δ]: the trace grew by [Δ] and the
    results by the entries of the downloads of [Δ] that succeeded. *)
Record extends (st st' : State) (Δ : list Event) : Prop := {
  ext_trace : trace st' = trace st ++ Δ;
  ext_results : results st' = results st ++ saved Δ
}.

(** Events below the level of a window: no window is announced, no failure
    logged and no ledger written. *)
Record inside_window (Δ : list Event) : Prop := {
  in_periods : periods Δ = [];
  in_failures : failures Δ = [];
  in_writes : writes Δ = []
}.

(** What the windows that start at [dates] add to a run. *)
Record window_events (env : Env) (maxPages : Z) (dates : list Z) (Δ : list Event) : Prop := {
  we_periods : periods Δ = (fun d => (d, d + 2)) <$> dates;
  we_writes : writes Δ = [];
  we_searches : searches Δ = dates ≫= windowRequests env maxPages;
  we_failures : failures Δ = omap (thrown env) (searches Δ);
  we_downloads :
    downloads Δ = filter (fun d => reachesDownload d = true) (searches Δ ≫= rowsOf env);
  we_skips :
    skips Δ = filter (fun d => shouldExclude d = true) (searches Δ ≫= rowsOf env)
}.

End Trace.

(** ** The specification's own words *)

Module Spec.

(** [kw] is a substring of [text]. *)
Definition is_substring (kw text : string) : Prop :=
  ∃ pre post, text = pre +:+ kw +:+ post.

(** The windows of 4.3: [window[i] = [start + i·W, min(start + (i+1)·W, end)]]. *)
Definition windows (W startDate endDate : Z) : list (Z * Z) :=
  (fun i => (startDate + i * W, Z.min (startDate + (i + 1) * W) endDate)) <$>
    seqZ 0 ((endDate - startDate) `div` W + 1).


End Spec.

(** ** Concrete hosts, portals and invocations *)

Module Scenarios.
Import Js Calendar CookieExtractor PuppeteerParser Cli.

(** A day of January 2024 as a day number. *)
Definition jan2024 (d : Z) : Z := days_from_civil (2024, 1, d).

(** 2025-06-15T12:00:00Z, on a host in UTC and on one in Moscow (UTC+3). *)
Definition noon_2025_06_15 : Z := parseISODate (2025, 6, 15) + 12 * 3600000.

Definition utcHost : Host := {| nowMs := noon_2025_06_15; tzOffsetMinutes := 0 |}.

Definition moscowHost : Host := {| nowMs := noon_2025_06_15; tzOffsetMinutes := 180 |}.

(** A cookie jar whose fingerprint cookie is there with an empty value. *)
Definition emptyFingerprint : gmap string string := {[ "pr_fp" := "" ]}.

(** Every download succeeds; the clock ticks with the events. *)
Definition savesAll (t : nat) (url filename : string) : option string :=
  Some ("/app/docs/" +:+ filename).

Definition tick (t : nat) : Z := 1704067200000 + Z.of_nat t.

Definition okPage (docs : list SearchDoc) : FetchResult :=
  HttpResponse 200 "OK" (BodyData docs).

Definition portalEnv (answer : SearchParams → FetchResult) : Env :=
  {| docsDirExists := true; portal := answer; download := savesAll; clock := tick |}.

(** A court decision, and the same row without its document link. *)
Definition decision : SearchDoc :=
  {| CaseNumber := Some "А40-1"; Title := Some "Решение по делу №123";
     Date := Some "2024-01-03";
     DocumentUrl := Some "https://kad.arbitr.ru/Document/Pdf/1" |}.

Definition decisionNoUrl : SearchDoc :=
  {| CaseNumber := Some "А40-1"; Title := Some "Решение по делу №123";
     Date := Some "2024-01-03"; DocumentUrl := None |}.

(** A postponement, and a ruling on a postponement: the second matches an
    include keyword and an exclude keyword. *)
Definition postponement : SearchDoc :=
  {| CaseNumber := Some "А40-2"; Title := Some "Перенос заседания";
     Date := Some "2024-01-03";
     DocumentUrl := Some "https://kad.arbitr.ru/Document/Pdf/2" |}.

Definition rulingOnPostponement : SearchDoc :=
  {| CaseNumber := Some "А40-3"; Title := Some "Определение о переносе заседания";
     Date := Some "2024-01-03";
     DocumentUrl := Some "https://kad.arbitr.ru/Document/Pdf/3" |}.

(** The decision of the window that starts on day [d]. *)
Definition decisionOf (d : Z) : SearchDoc :=
  {| CaseNumber := Some ("А40-" +:+ pretty d); Title := Some "Решение по делу";
     Date := None;
     DocumentUrl := Some ("https://kad.arbitr.ru/Document/Pdf/" +:+ pretty d) |}.

(** The portal of the end-to-end scenario: one decision of its own and one
    postponement on the first page of every window. *)
Definition scenarioPortal : Env :=
  portalEnv (fun p => if Page p =? 1 then okPage [decisionOf (DateFrom p); postponement]
                      else okPage []).

(** The portal finds nothing. *)
Definition emptyPortal : Env := portalEnv (fun _ => okPage []).

(** The portal answers the first page of every window with the same
    decision (it is dated on the day two windows share). *)
Definition repeatingPortal : Env :=
  portalEnv (fun p => if Page p =? 1 then okPage [decision] else okPage []).


(** The first page of every window holds a decision without a link. *)
Definition noUrlPortal : Env :=
  portalEnv (fun p => if Page p =? 1 then okPage [decisionNoUrl] else okPage []).


(** A ledger whose two fields are present and falsy. *)
Definition falsyLedger : list (string * Json) :=
  [("total_documents", JBool false); ("processed_at", JString "")].

(** [node puppeteer_main.js init] when closing the browser fails. *)
Definition initArgs : Args :=
  {| command := Some "init"; cookies_file := None; params := None;
     start_date := None; end_date := None; max_pages := None |}.

Definition closeRejects : World :=
  {| initOutcome := InitOk; loadCookiesOutcome := true;
     searchOutcome := Returned (BodyData []); processOutcome := Returned [];
     metadataFile := FileAbsent;
     closeOutcome := Threw "Protocol error: Connection closed." |}.

End Scenarios.

(** ** The pacing of a run *)

Module Pacing.
Import Js PuppeteerParser.

(** In a trace, every call of [downloadPDF] is followed at once by the wait
    of one second. *)
Definition download_then_wait (tr : list Event) : Prop :=
  ∀ i doc filename outcome,
    tr !! i = Some (EvDownload doc filename outcome) → tr !! S i = Some (EvWait 1000).

(** In a trace, every request for a page after the first comes at once
    after the wait of two seconds. *)
Definition wait_then_next_page (tr : list Event) : Prop :=
  ∀ i p, tr !! i = Some (EvSearch p) → Page p ≠ 1 →
         ∃ j, i = S j ∧ tr !! j = Some (EvWait 2000).

(** A state whose trace is paced. *)
Definition paced (st : State) : Prop :=
  download_then_wait (trace st) ∧ wait_then_next_page (trace st).

End Pacing.

(** ** The commands of the dispatcher *)

Module CliCommands.
Import Js PuppeteerParser Cli.

(** The [case] labels of the [switch]. *)
Definition commands : list string :=
  ["init"; "loadCookies"; "searchDocuments"; "processDateRange"; "getStats"; "close"].


(** [args.command || args._ || 'help']: the command an invocation runs. *)
Definition commandOf (args : Args) : string := or_else (command args) "help".

End CliCommands.

(** ** The report of [validateCookies] on one cookie *)

Module CookieReport.
Import Js CookieExtractor.

(** The entry of [validation.criticalCookies] for a cookie that was found. *)
Definition foundEntry (descr cookieValue : string) : CriticalCookie :=
  {| found := true; description := descr;
     value := take_string 20 cookieValue +:+ "..." |}.

End CookieReport.

(** ** The command line (puppeteer_main.js, parseArgs) *)

Module ParseArgs.
Import Js PuppeteerParser.

(** [s.substring(n)] (on bytes). *)
Fixpoint drop_string (n : nat) (s : string) : string :=
  match n, s with
  | O, _ => s
  | S _, EmptyString => EmptyString
  | S n', String _ s' => drop_string n' s'
  end.

(** [s.endsWith(suffix)]. *)
Fixpoint ends_with (suffix s : string) : bool :=
  String.eqb suffix s ||
  match s with
  | EmptyString => false
  | String _ s' => ends_with suffix s'
  end.

(** The file system as [parseArgs] sees it: [fs.existsSync(path)], and what
    [JSON.parse(fs.readFileSync(path, 'utf8'))] comes to. *)
Record Files := {
  pathExists : string → bool;
  readJson : string → Completion Json
}.

(** What is stored for an option whose value is the token [value]: the
    content of the JSON file of that name if there is one and it can be read
    and parsed, the token itself otherwise. *)
Definition optionValue (fs : Files) (value : string) : Json :=
  if ends_with ".json" value && pathExists fs value then
    match readJson fs value with
    | Returned parsed => parsed
    | Threw _ => JString value
    end
  else JString value.

(** The [while] loop of the first version, on the tokens from index [i] on:
    the assignments [parsed[key] = ...] it makes, in order. *)
Fixpoint scan (fs : Files) (args : list string) : list (string * Json) :=
  match args with
  | [] => []
  | arg :: rest =>
      if starts_with "--" arg then
        let key := drop_string 2 arg in
        match rest with
        | nextArg :: rest' =>
            if truthy_string nextArg && negb (starts_with "--" nextArg)
            then (key, optionValue fs nextArg) :: scan fs rest'
            else (key, JBool true) :: scan fs rest
        | [] => [(key, JBool true)]
        end
      else scan fs rest
  end.

(** [parseArgs()] of the first version on [process.argv.slice(2)]: the
    object it returns, as the assignments to [parsed] in the order in which
    they are made.  [field key] reads the own property [key] of the object
    (the last assignment to it), for every key but [__proto__]: an
    assignment to that key sets no property of a plain object. *)
Definition parseArgs (fs : Files) (argv : list string) : list (string * Json) :=
  match argv with
  | first :: rest =>
      if negb (starts_with "--" first)
      then ("command", JString first) :: ("_", JString first) :: scan fs rest
      else scan fs argv
  | [] => []
  end.

(** [args.command || args._ || 'help'] of the first version of [main]. *)
Definition commandValue (parsed : list (string * Json)) : Json :=
  or_json (field "command" parsed) (or_json (field "_" parsed) (JString "help")).

(** The [for] loop of the second version, which steps by two: the
    assignments it makes; [None] is the [undefined] that [args[i + 1]] is
    past the end. *)
Fixpoint scan2 (fs : Files) (args : list string) : list (string * option Json) :=
  match args with
  | [] => []
  | arg :: rest =>
      let here :=
        if starts_with "--" arg
        then [(drop_string 2 arg, optionValue fs <$> head rest)]
        else [] in
      match rest with
      | [] => here
      | _ :: rest' => here ++ scan2 fs rest'
      end
  end.

(** [parseArgs()] of the second version. *)
Definition parseArgs2 (fs : Files) (argv : list string) : list (string * option Json) :=
  scan2 fs argv.

(** The own property [key] after the assignments of the second version. *)
Definition field2 (key : string) (parsed : list (string * option Json)) : option Json :=
  foldl (fun found kv => if String.eqb (fst kv) key then snd kv else found) None parsed.

(** [args._ || args[0] || 'help'] of the second version of [main]. *)
Definition commandValue2 (parsed : list (string * option Json)) : Json :=
  or_json (field2 "_" parsed) (or_json (field2 "0" parsed) (JString "help")).

(** The next token as the first version's loop takes it for an option:
    a value, or nothing when the option is a flag. *)
Definition valueAfter (fs : Files) (next : option string) : Json :=
  match next with
  | Some nextArg =>
      if truthy_string nextArg && negb (starts_with "--" nextArg)
      then optionValue fs nextArg
      else JBool true
  | None => JBool true
  end.

(** Every token with the token that follows it. *)
Definition withNext (args : list string) : list (string * option string) :=
  zip args (tail (Some <$> args) ++ [None]).

(** A command line in the usual form: [--key value --key value ...]. *)
Definition optionTokens (options : list (string * string)) : list string :=
  options ≫= (fun kv => ["--" +:+ kv.1; kv.2]).

End ParseArgs.

(** ** Collecting the cookies (cookie_extractor.js, extractCookies) and the
    collector's entry point (cookie_extractor_main.js) *)

Module CookieCollector.
Import Js CookieExtractor.

(** A cookie as [page.cookies()] returns it: its [name] and its [value]. *)
Definition Cookie : Type := string * string.

(** [this.extracted_cookies[cookie.name] = cookie.value]: the assignment of
    a string to [__proto__] leaves a plain object as it is. *)
Definition store (jar : gmap string string) (cookie : Cookie) : gmap string string :=
  if String.eqb cookie.1 "__proto__" then jar else <[cookie.1 := cookie.2]> jar.

(** [this.extracted_cookies = {}] followed by the loop over the cookies. *)
Definition toObject (cookies : list Cookie) : gmap string string := foldl store ∅ cookies.

(** What the page does during [extractCookies]: the steps up to the test
    search whose rejection is rethrown (the navigation, the waits, the check
    for the anti-bot page; the test search itself is in a [try] that goes
    on), the first [page.cookies()], the API request of step 6, and the
    second [page.cookies()]. *)
Record Page := {
  navigation : Completion unit;
  firstCookies : Completion (list Cookie);
  apiRequest : Completion unit;
  updatedCookies : Completion (list Cookie)
}.

(** [extractCookies()]: the object it returns, which is
    [this.extracted_cookies]. *)
Definition extractCookies (page : Page) : Completion (gmap string string) :=
  _ ← navigation page;
  cookies ← firstCookies page;
  let collected := toObject cookies in
  try_catch
    (_ ← apiRequest page;
     updated ← updatedCookies page;
     mret (toObject updated))
    (fun _ => mret collected).

(** One run of the collector: how [init] goes, the page, what [saveCookies]
    returns and how closing the browser goes. *)
Record Session := {
  initOutcome : Cli.InitOutcome;
  page : Page;
  saved : bool;
  closeOutcome : Completion unit
}.

(** The [stats] of the printed result. *)
Record Stats := {
  total_cookies : nat;
  critical_cookies : nat;
  statsIsValid : bool;
  statsErrors : nat;
  statsWarnings : nat
}.

(** An object printed by the collector: the result with [success: true],
    or a failure with [success: false]. *)
Inductive Report :=
| Collected (cookies : gmap string string) (validation : Validation) (stats : Stats)
| Failed (error message : string).

(** The body of the [try] block of [main]. *)
Definition collect (s : Session) : bool * Completion Report :=
  let '(browser, started) :=
    match initOutcome s with
    | Cli.InitOk => (true, Returned ())
    | Cli.LaunchRejected msg => (false, Threw msg)
    | Cli.PageSetupRejected msg => (true, Threw msg)
    end in
  (browser,
   _ ← started;
   cookies ← extractCookies (page s);
   let validation := validateCookies cookies in
   let _ := saved s in
   mret (Collected cookies validation
           {| total_cookies := size cookies;
              critical_cookies := size (criticalCookies validation);
              statsIsValid := isValid validation;
              statsErrors := length (errors validation);
              statsWarnings := length (warnings validation) |})).

(** [main()] of the collector with its [catch] and [finally], followed by
    the [main().catch(...)] of the start-up code: the objects printed and
    the exit code. *)
Definition main (s : Session) : list Report * Z :=
  let '(browser, body) := collect s in
  let printed :=
    match body with
    | Returned report => [report]
    | Threw msg => [Failed msg "Ошибка автоматического сбора cookies"]
    end in
  match (if browser then closeOutcome s else Returned ()) with
  | Returned _ => (printed, 0)
  | Threw msg => (printed ++ [Failed msg "Критическая ошибка cookie extractor"], 1)
  end.

End CookieCollector.

(** ** metadata.json, from [processDateRange] to [getStats] *)

Module Metadata.
Import Js Calendar PuppeteerParser.

(** The decimal digits of [n], with zeros in front up to [width] digits. *)
Definition pad (width : nat) (n : Z) : string :=
  let digits := pretty n in
  String.concat "" (replicate (width - String.length digits) "0") +:+ digits.

(** [d.toISOString()] for an instant in the range of [Date]:
    [YYYY-MM-DDTHH:mm:ss.sssZ] in UTC, the year with a sign and six digits
    when it is not in 0..9999. *)
Definition toISOString (ms : Z) : string :=
  let '(y, m, d) := civil_from_days (ms / msPerDay) in
  let t := ms mod msPerDay in
  let year :=
    if (0 <=? y) && (y <=? 9999) then pad 4 y
    else (if y <? 0 then "-" else "+") +:+ pad 6 (Z.abs y) in
  year +:+ "-" +:+ pad 2 m +:+ "-" +:+ pad 2 d +:+ "T" +:+
  pad 2 (t / 3600000) +:+ ":" +:+ pad 2 (t / 60000 mod 60) +:+ ":" +:+
  pad 2 (t / 1000 mod 60) +:+ "." +:+ pad 3 (t mod 1000) +:+ "Z".

(** A property of an object as [JSON.stringify] writes it: one that is
    [undefined] is left out.  (One that is [null] is written as [null]; a
    row here does not tell the two apart, and [getStats] reads none of the
    properties of a document.) *)
Definition property (key : string) (v : option string) : list (string * Json) :=
  match v with
  | Some s => [(key, JString s)]
  | None => []
  end.

(** An entry of [results] in metadata.json. *)
Definition entryJson (entry : ResultEntry) : Json :=
  JObject (property "caseNumber" (caseNumber entry) ++ property "title" (title entry) ++
           property "date" (date entry) ++ property "url" (url entry) ++
           [("filepath", JString (filepath entry))]).

(** What [JSON.parse] makes of the text that [processDateRange] writes to
    metadata.json at the instant [processed_at]. *)
Definition metadataJson (processed_at : Z) (total_documents : nat)
    (documents : list ResultEntry) : Json :=
  JObject [("processed_at", JString (toISOString processed_at));
           ("total_documents", JNumber (Z.of_nat total_documents));
           ("documents", JArray (entryJson <$> documents))].

End Metadata.

(** ** [processDateRange] on a host with a time zone *)

Module Zoned.
Import Js Calendar PuppeteerParser.

(** The time zone of the host: the offset of local time from UTC in
    minutes, at a UTC instant ([utcOffset]) and at a local time value
    ([localOffset], which settles how a local time that a change of offset
    skips or repeats is read).  An offset is less than a day. *)
Record Zone := {
  utcOffset : Z → Z;
  localOffset : Z → Z;
  utcOffset_range : ∀ t, -1440 < utcOffset t < 1440;
  localOffset_range : ∀ t, -1440 < localOffset t < 1440
}.

(** The host keeps one offset throughout (no daylight-saving time). *)
Definition fixed_offset (zone : Zone) : Prop :=
  ∃ minutes, (∀ t, utcOffset zone t = minutes) ∧ (∀ t, localOffset zone t = minutes).

(** [LocalTime(t)] and [UTC(t)] of the [Date] object. *)
Definition LocalTime (zone : Zone) (t : Z) : Z := t + utcOffset zone t * msPerMinute.

Definition UTC (zone : Zone) (t : Z) : Z := t - localOffset zone t * msPerMinute.

(** [d.getDate()]: the day of the month of the local date. *)
Definition getDate (zone : Zone) (t : Z) : Z :=
  let '(_, _, d) := civil_from_days (LocalTime zone t / msPerDay) in d.

(** [d.setDate(date)]: the local date with its day of the month replaced
    ([MakeDay] counts a day past the end of the month on into the next
    month), at the same local time of day. *)
Definition setDate (zone : Zone) (t date : Z) : Z :=
  let localTime := LocalTime zone t in
  let '(y, m, _) := civil_from_days (localTime / msPerDay) in
  UTC zone (days_from_civil (y, m, date) * msPerDay + localTime mod msPerDay).

(** [nextDate.setDate(nextDate.getDate() + 2)] in closed form: two days
    later on the local calendar, at the same local time of day
    ([ZonedFacts.setDate_getDate] shows that it is [setDate zone t (getDate
    zone t + 2)]). *)
Definition twoDaysLater (zone : Zone) (t : Z) : Z :=
  UTC zone (LocalTime zone t + 2 * msPerDay).

(** [d.toISOString().split('T')[0]], as the number of the UTC day. *)
Definition isoDay (t : Z) : Z := t / msPerDay.

(** The body of [while (currentDate <= endDateObj)] for the instant
    [currentDate]. *)
Definition processWindow (zone : Zone) (env : Env) (maxPages currentDate : Z) (st : State) : State :=
  let nextDate := twoDaysLater zone currentDate in
  match pagesLoop env (isoDay currentDate) (isoDay nextDate) maxPages 1
          (emit (EvPeriod (isoDay currentDate) (isoDay nextDate)) st) with
  | (st', Some msg) => emit (EvPeriodError msg) st'
  | (st', None) => st'
  end.

(** The loop on instants.  A turn moves the instant on by more than two
    minutes (two days, less the difference of two offsets), which is what
    the measure counts. *)
Equations? datesLoop (zone : Zone) (env : Env) (maxPages endDate currentDate : Z) (st : State)
    : State by wf (Z.to_nat ((endDate - currentDate) / (2 * msPerMinute) + 1)) lt :=
  datesLoop zone env maxPages endDate currentDate st with decide (currentDate <= endDate) => {
    | left _ := datesLoop zone env maxPages endDate (twoDaysLater zone currentDate)
                  (processWindow zone env maxPages currentDate st);
    | right _ := st }.
Proof.
  unfold twoDaysLater, UTC, LocalTime, msPerMinute, msPerDay.
  pose proof (utcOffset_range zone currentDate).
  pose proof (localOffset_range zone
    (currentDate + utcOffset zone currentDate * 60000 + 2 * 86400000)).
  Z.div_mod_to_equations. lia.
Qed.

(** [processDateRange(startDate, endDate, maxPages)] on a host in [zone],
    for two arguments that [new Date] reads as the instants [startDate] and
    [endDate] (a date-only text is the UTC midnight of its day). *)
Definition processDateRange (zone : Zone) (env : Env) (startDate endDate maxPages : Z) : State :=
  let st0 := if docsDirExists env then initial else emit EvMkdirDocs initial in
  let st1 := datesLoop zone env maxPages endDate startDate st0 in
  emit (EvWriteMetadata (clock env (length (trace st1))) (length (results st1)) (results st1)) st1.

(** A host at a fixed offset. *)
Definition fixedZone (minutes : Z) (range : -1440 < minutes < 1440) : Zone :=
  {| utcOffset := fun _ => minutes; localOffset := fun _ => minutes;
     utcOffset_range := fun _ => range; localOffset_range := fun _ => range |}.

Definition utcZone : Zone := fixedZone 0 ltac:(lia).

(** Europe/Berlin in 2024: UTC+1, and UTC+2 from March 31, 01:00 UTC to
    October 27, 01:00 UTC.  A local time that the change of March skips is
    read with the offset before the change, one that the change of October
    repeats as its first occurrence. *)
Definition berlin2024 : Zone :=
  let march := days_from_civil (2024, 3, 31) * msPerDay in
  let october := days_from_civil (2024, 10, 27) * msPerDay in
  {| utcOffset := fun t =>
       if (march + 3600000 <=? t) && (t <? october + 3600000) then 120 else 60;
     localOffset := fun t =>
       if (march + 3 * 3600000 <=? t) && (t <? october + 3 * 3600000) then 120 else 60;
     utcOffset_range := fun t =>
       ltac:(cbv beta; match goal with |- context [if ?b then _ else _] => destruct b end; lia);
     localOffset_range := fun t =>
       ltac:(cbv beta; match goal with |- context [if ?b then _ else _] => destruct b end; lia) |}.

End Zoned.

(** ** The dispatcher in its process: the construction of the parser *)

Module CliProcess.
Import Js PuppeteerParser Cli CliCommands.

(** What the constructor of [PuppeteerParser] reads of the process: the
    variable [DOCS_DIR] and what [process.cwd()] comes to (it throws when
    the working directory has been removed). *)
Record Process := {
  DOCS_DIR : option string;
  cwd : Completion string
}.

(** The [docsDir] of a parser: [process.env.DOCS_DIR], or
    [path.join(process.cwd(), 'docs')]. *)
Inductive DocsDir :=
| FromEnv (dir : string)
| UnderCwd (workingDirectory : string).

(** [new PuppeteerParser()], as [main] calls it (without options):
    [options.docsDir || process.env.DOCS_DIR || path.join(process.cwd(),
    'docs')] asks for the working directory only when [DOCS_DIR] is not
    set or is empty. *)
Definition newPuppeteerParser (p : Process) : Completion DocsDir :=
  if truthy (DOCS_DIR p) then mret (FromEnv (or_else (DOCS_DIR p) ""))
  else
    workingDirectory ← cwd p;
    mret (UnderCwd workingDirectory).

(** The [switch] inside [try] with the first statement of each of its six
    cases, [parser = new PuppeteerParser()]: when the constructor throws,
    [parser] is still [null]; when it returns, the case goes on as
    [Cli.dispatch] has it.  The default case constructs nothing. *)
Definition dispatch (p : Process) (w : World) (args : Args) (cmd : string)
    : bool * Completion (list JsonOut) :=
  if bool_decide (cmd ∈ commands) then
    match newPuppeteerParser p with
    | Threw msg => (false, Threw msg)
    | Returned _ => Cli.dispatch w args cmd
    end
  else Cli.dispatch w args cmd.

(** [main()] and the start-up code, as [Cli.main], in the process [p]. *)
Definition main (p : Process) (w : World) (args : Args) : Output :=
  let cmd := or_else (command args) "help" in
  let '(browser, body) := dispatch p w args cmd in
  let printed :=
    match body with
    | Returned out => out
    | Threw msg => [fail msg]
    end in
  match (if browser then closeOutcome w else Returned ()) with
  | Returned _ => {| objects := printed; exitCode := 0 |}
  | Threw msg => {| objects := printed ++ [fail msg]; exitCode := 1 |}
  end.

(** A process whose working directory has been removed, with and without
    [DOCS_DIR]. *)
Definition removedCwd : Process :=
  {| DOCS_DIR := None;
     cwd := Threw "ENOENT: no such file or directory, uv_cwd" |}.

Definition removedCwdWithDocsDir : Process :=
  {| DOCS_DIR := Some "/app/docs";
     cwd := Threw "ENOENT: no such file or directory, uv_cwd" |}.

End CliProcess.

(** * Properties *)

(** ** Strings and truthiness *)

Module JsFacts.
Import Js Spec.

Lemma starts_with_spec kw text :
  starts_with kw text = true ↔ ∃ post, text = kw +:+ post.
Proof.
  revert text. induction kw as [|a kw IH]; intros text; simpl.
  - split; [intros _; by exists text | done].
  - destruct text as [|b text].
    + split; [done | intros [post H]; discriminate].
    + destruct (Ascii.eqb_spec a b) as [->|Hne].
      * rewrite IH. split; intros [post H]; exists post; [by rewrite H | by injection H].
      * split; [done | intros [post H]; injection H; congruence].
Qed.

(** [includes] decides the substring relation. *)
Lemma includes_spec kw text :
  includes kw text = true ↔ is_substring kw text.
Proof.
  unfold is_substring. induction text as [|c text IH].
  - simpl. rewrite orb_false_r, starts_with_spec. split.
    + intros [post H]. by exists "", post.
    + intros ([|c pre] & post & H); [by exists post | discriminate].
  - cbn [includes]. rewrite orb_true_iff, starts_with_spec, IH. split.
    + intros [[post H] | (pre & post & H)].
      * by exists "", post.
      * exists (String c pre), post. simpl. by rewrite H.
    + intros ([|c' pre] & post & H).
      * left. by exists post.
      * right. exists pre, post. simpl in H. by injection H.
Qed.

Lemma some_spec {A} (p : A → bool) (l : list A) :
  some p l = true ↔ ∃ x, x ∈ l ∧ p x = true.
Proof.
  unfold some. rewrite existsb_exists. by setoid_rewrite list_elem_of_In.
Qed.

(** A property is truthy when it is there and holds a non-empty string. *)
Lemma truthy_spec (x : option string) :
  truthy x = true ↔ ∃ v, x = Some v ∧ v ≠ "".
Proof.
  destruct x as [[|c s]|]; simpl; split; try done.
  - by intros (v & [= <-] & H).
  - intros _. by eexists.
  - by intros (v & ? & _).
Qed.

(** The lower-casing covers the capital letters of the keywords' alphabet. *)
Example toLowerCase_cyrillic :
  toLowerCase "Решение по делу №123 (ПЕРЕНОС) ABC" = "решение по делу №123 (перенос) abc".
Proof. by vm_compute. Qed.

End JsFacts.

(** ** CookieExtractor *)

Module CookieExtractorSpec.
Import Js Calendar CookieExtractor Scenarios JsFacts.

Lemma checkCookie_fields cookies v entry :
  isValid (checkCookie cookies v entry) = isValid v && passes cookies entry ∧
  errors (checkCookie cookies v entry) = errors v ++ errorFor cookies entry ∧
  warnings (checkCookie cookies v entry) = warnings v ++ warningFor cookies entry.
Proof.
  destruct entry as [name descr].
  unfold checkCookie, passes, errorFor, warningFor. cbn [fst snd].
  destruct (truthy (cookies !! name)); [|destruct (String.eqb name "pr_fp")];
    cbn [isValid errors warnings orb negb];
    rewrite ?app_nil_r, ?andb_true_r, ?andb_false_r; done.
Qed.

(** The loop over a table, field by field. *)
Lemma checkTable_fields cookies table v :
  let v' := foldl (checkCookie cookies) v table in
  isValid v' = isValid v && forallb (passes cookies) table ∧
  errors v' = errors v ++ table ≫= errorFor cookies ∧
  warnings v' = warnings v ++ table ≫= warningFor cookies.
Proof.
  revert v. induction table as [|entry table IH]; intros v; cbn [foldl forallb].
  - by rewrite andb_true_r, !app_nil_r.
  - destruct (IH (checkCookie cookies v entry)) as (-> & -> & ->).
    destruct (checkCookie_fields cookies v entry) as (-> & -> & ->).
    by rewrite !bind_cons, andb_assoc, <- !app_assoc.
Qed.

Lemma validateCookies_fields cookies :
  let v := validateCookies cookies in
  isValid v = truthy (cookies !! "pr_fp") ∧
  errors v = errorFor cookies ("pr_fp", "Основной fingerprint cookie") ∧
  ∀ w, w ∈ tail criticalCookieTable ≫= warningFor cookies → w ∈ warnings v.
Proof.
  intros v.
  set (v0 := {| isValid := true; errors := []; warnings := [];
                foundCookies := (map_to_list cookies).*1; criticalCookies := ∅ |}).
  destruct (checkTable_fields cookies criticalCookieTable v0) as (Hv & He & Hw).
  assert (Hfields :
    isValid v = isValid (foldl (checkCookie cookies) v0 criticalCookieTable) ∧
    errors v = errors (foldl (checkCookie cookies) v0 criticalCookieTable) ∧
    ∀ w, w ∈ warnings (foldl (checkCookie cookies) v0 criticalCookieTable) → w ∈ warnings v).
  { subst v. unfold validateCookies. fold v0.
    destruct (size cookies <? 5)%nat; cbn [isValid errors warnings]; [|done].
    split; [done|]. split; [done|]. intros w Hin. apply elem_of_app. by left. }
  destruct Hfields as (-> & -> & Hsub). rewrite Hv, He.
  assert (Hname : String.eqb "pr_fp" "pr_fp" = true ∧ String.eqb "wasm" "pr_fp" = false ∧
                  String.eqb "PHPSESSID" "pr_fp" = false ∧
                  String.eqb "ASP.NET_SessionId" "pr_fp" = false) by (by vm_compute).
  destruct Hname as (Hn1 & Hn2 & Hn3 & Hn4).
  split; [|split].
  - unfold criticalCookieTable, passes. cbn [forallb fst isValid v0].
    rewrite Hn1, Hn2, Hn3, Hn4. cbn [negb andb orb].
    by rewrite !orb_true_r, orb_false_r, andb_true_r.
  - unfold criticalCookieTable. rewrite !bind_cons. cbn [errors app v0].
    unfold errorFor at 2 3 4. cbn [fst snd]. rewrite Hn2, Hn3, Hn4.
    repeat match goal with |- context [if ?b then _ else _] => destruct b end;
      by rewrite !app_nil_r.
  - intros w Hin. apply Hsub. rewrite Hw. unfold criticalCookieTable at 1.
    rewrite bind_cons. cbn [warnings app tail v0] in *. apply elem_of_app. by right.
Qed.

(** C5 (amended): for every cookie map, [validateCookies] returns
    [isValid = true] exactly when [pr_fp] is there with a non-empty value,
    whatever the optional cookies are; then the errors are empty.  When
    [pr_fp] is missing or empty, [isValid] is false and the only error is the
    message that names [pr_fp].  A missing optional cookie (wasm, PHPSESSID,
    ASP.NET_SessionId) only adds its warning. *)
Theorem validateCookies_primary_token (cookies : gmap string string) :
  let v := validateCookies cookies in
  (isValid v = true ↔ ∃ value, cookies !! "pr_fp" = Some value ∧ value ≠ "") ∧
  (isValid v = true → errors v = []) ∧
  (isValid v = false → errors v = [prFpMissing] ∧ includes "pr_fp" prFpMissing = true) ∧
  (∀ name descr, (name, descr) ∈ tail criticalCookieTable →
     truthy (cookies !! name) = false → missingOptional name descr ∈ warnings v).
Proof.
  intros v. destruct (validateCookies_fields cookies) as (Hv & He & Hw). fold v in Hv, He, Hw.
  rewrite <- truthy_spec, Hv, He. unfold errorFor. cbn [fst snd].
  replace (String.eqb "pr_fp" "pr_fp") with true by (by vm_compute).
  split; [done|]. split; [by intros -> |]. split.
  - intros ->. split; [done | by vm_compute].
  - intros name descr Hin Hn. apply Hw. apply list_elem_of_bind.
    exists (name, descr). split; [|done].
    unfold warningFor. cbn [fst snd]. rewrite Hn.
    assert (Hne : String.eqb name "pr_fp" = false).
    { cbn [tail criticalCookieTable] in Hin. rewrite !elem_of_cons in Hin.
      destruct Hin as [[= -> ->]|[[= -> ->]|[[= -> ->]|Hin]]]; try (by vm_compute).
      by apply elem_of_nil in Hin. }
    rewrite Hne. by apply list_elem_of_singleton.
Qed.

(** C5 as stated fails: a jar that holds [pr_fp] with an empty value is
    reported invalid, with the error that [pr_fp] is missing. *)
Lemma empty_fingerprint_is_invalid :
  is_Some (emptyFingerprint !! "pr_fp") ∧
  isValid (validateCookies emptyFingerprint) = false ∧
  errors (validateCookies emptyFingerprint) = [prFpMissing].
Proof. split; [by eexists | by vm_compute]. Qed.

(** The calendar on known days. *)
Example calendar_known_days :
  days_from_civil (1970, 1, 1) = 0 ∧
  civil_from_days 0 = (1970, 1, 1) ∧
  civil_from_days (days_from_civil (2024, 2, 29)) = (2024, 2, 29) ∧
  civil_from_days (days_from_civil (2024, 2, 29) + 1) = (2024, 3, 1) ∧
  days_from_civil (2025, 1, 1) - days_from_civil (2024, 1, 1) = 366 ∧
  toISODate (-1) = (1969, 12, 31).
Proof. by vm_compute. Qed.

(** [getApiDates] never returns a missing date, and the pair it returns is
    in the order in which it compares dates: [DateFrom <= DateTo]. *)
Lemma getApiDates_ordered (h : Host) (dateFrom dateTo : DateArg) :
  ∃ f t, getApiDates h dateFrom dateTo = {| DateFrom := Some f; DateTo := Some t |} ∧
         parseISODate f <= parseISODate t.
Proof.
  unfold getApiDates.
  destruct (or_date (formatDate dateFrom) _) as [f|] eqn:Hf;
    [|destruct dateFrom; discriminate].
  destruct (or_date (formatDate dateTo) _) as [t|] eqn:Ht;
    [|destruct dateTo; discriminate].
  destruct (parseISODate t <? parseISODate f) eqn:Hlt.
  - exists t, f. split; [done|]. apply Z.ltb_lt in Hlt. lia.
  - exists f, t. split; [done|]. apply Z.ltb_ge in Hlt. lia.
Qed.

(** Two parseable arguments in the wrong order are swapped. *)
Lemma getApiDates_swaps (h : Host) (a b : Z) :
  parseISODate (toISODate b) < parseISODate (toISODate a) →
  getApiDates h (ArgInstant a) (ArgInstant b) =
    {| DateFrom := Some (toISODate b); DateTo := Some (toISODate a) |}.
Proof.
  intros Hlt. unfold getApiDates. cbn [formatDate or_date].
  apply Z.ltb_lt in Hlt. by rewrite Hlt.
Qed.

(** The lemma at March 10 and January 5, 2025. *)
Lemma getApiDates_swaps_witness :
  getApiDates utcHost (ArgInstant (parseISODate (2025, 3, 10)))
                      (ArgInstant (parseISODate (2025, 1, 5))) =
    {| DateFrom := Some (2025, 1, 5); DateTo := Some (2025, 3, 10) |}.
Proof.
  apply (getApiDates_swaps utcHost (parseISODate (2025, 3, 10)) (parseISODate (2025, 1, 5))).
  by vm_compute.
Defined.

(** On a host in UTC the defaults are January 1 of the current year and
    today. *)
Example getApiDates_defaults_utc :
  getApiDates utcHost ArgMissing ArgMissing =
    {| DateFrom := Some (2025, 1, 1); DateTo := Some (2025, 6, 15) |}.
Proof. by vm_compute. Qed.

(** C9 at its failing input: on a host three hours east of UTC, on
    2025-06-15, the default from-date is 2024-12-31, not January 1 of the
    current year: local midnight of January 1 is 21:00 of December 31 in UTC,
    and [toISOString] prints the UTC date. *)
Theorem getApiDates_default_from_east_of_utc :
  getApiDates moscowHost ArgMissing ArgMissing =
    {| DateFrom := Some (2024, 12, 31); DateTo := Some (2025, 6, 15) |} ∧
  getApiDates moscowHost ArgInvalid ArgInvalid =
    {| DateFrom := Some (2024, 12, 31); DateTo := Some (2025, 6, 15) |}.
Proof. by vm_compute. Qed.

End CookieExtractorSpec.

(** ** PuppeteerParser: the shape of a run *)

Module PuppeteerParserFacts.
Import Js PuppeteerParser Trace.

Lemma pagesLoop_unfold env dateFrom dateTo maxPages page st :
  pagesLoop env dateFrom dateTo maxPages page st =
    if decide (page <= maxPages) then
      match processPage env dateFrom dateTo page st with
      | PageBreak st' => (st', None)
      | PageThrew st' msg => (st', Some msg)
      | PageNext st' => pagesLoop env dateFrom dateTo maxPages (page + 1) st'
      end
    else (st, None).
Proof.
  simp pagesLoop. destruct (decide (page <= maxPages)); cbn; [|done].
  destruct (processPage env dateFrom dateTo page st); cbn; done.
Qed.

Lemma datesLoop_unfold env maxPages endDate currentDate st :
  datesLoop env maxPages endDate currentDate st =
    if decide (currentDate <= endDate) then
      datesLoop env maxPages endDate (currentDate + 2) (processWindow env maxPages currentDate st)
    else st.
Proof.
  simp datesLoop. destruct (decide (currentDate <= endDate)); cbn; [|done].
  by simp datesLoop.
Qed.

(** The views of a trace are [omap]s: unfold them to rewrite with
    [omap_app]. *)
Ltac unfold_views :=
  unfold periods, searches, downloads, skips, failures, writes, saved in *.

Lemma extends_refl st : extends st st [].
Proof. split; by rewrite app_nil_r. Qed.

Lemma extends_trans st1 st2 st3 Δ Δ' :
  extends st1 st2 Δ → extends st2 st3 Δ' → extends st1 st3 (Δ ++ Δ').
Proof.
  intros [Ht Hr] [Ht' Hr']. split.
  - by rewrite Ht', Ht, app_assoc.
  - unfold_views. by rewrite Hr', Hr, omap_app, app_assoc.
Qed.

Lemma extends_emit e st : savedOf e = None → extends st (emit e st) [e].
Proof. intros He. split; cbn; [done|]. by rewrite He, app_nil_r. Qed.

Lemma inside_window_app Δ Δ' : inside_window Δ → inside_window Δ' → inside_window (Δ ++ Δ').
Proof.
  intros [H1 H2 H3] [H1' H2' H3']. unfold_views.
  split; unfold_views; rewrite omap_app; by rewrite ?H1, ?H2, ?H3, ?H1', ?H2', ?H3'.
Qed.

Lemma upto_first_omap {A B} (stop : A → bool) (f : A → option B) (l : list A) :
  (∀ x, stop x = false → f x = None) →
  omap f (upto_first stop l) = option_list (last (upto_first stop l) ≫= f).
Proof.
  intros Hf. induction l as [|x l IH]; [done|]. cbn [upto_first].
  destruct (stop x) eqn:Hx.
  - cbn. by destruct (f x).
  - cbn [omap list_omap]. rewrite (Hf x Hx), IH.
    destruct (upto_first stop l); [|done]. cbn. by rewrite (Hf x Hx).
Qed.

Lemma windowsFrom_nil currentDate endDate :
  endDate < currentDate → windowsFrom currentDate endDate = [].
Proof.
  intros H. unfold windowsFrom. rewrite seqZ_nil; [done|].
  assert ((endDate - currentDate) `div` 2 < 0) by (apply Z.div_lt_upper_bound; lia). lia.
Qed.

Lemma windowsFrom_cons currentDate endDate :
  currentDate <= endDate →
  windowsFrom currentDate endDate =
    (currentDate, currentDate + 2) :: windowsFrom (currentDate + 2) endDate.
Proof.
  intros H. unfold windowsFrom.
  assert (0 <= (endDate - currentDate) `div` 2) by (apply Z.div_pos; lia).
  replace ((endDate - (currentDate + 2)) `div` 2 + 1) with ((endDate - currentDate) `div` 2).
  2: { replace (endDate - (currentDate + 2)) with ((endDate - currentDate) + (-1) * 2) by lia.
       rewrite Z.div_add by lia. lia. }
  rewrite seqZ_cons by lia. cbn [fmap list_fmap]. f_equal; [f_equal; lia|].
  replace (Z.pred ((endDate - currentDate) `div` 2 + 1)) with ((endDate - currentDate) `div` 2) by lia.
  rewrite <- (fmap_add_seqZ 1 0), <- list_fmap_compose.
  apply list_fmap_ext. intros _ i _. cbn. f_equal; lia.
Qed.

Section Run.
Context (env : Env).

Lemma processDoc_spec st doc :
  ∃ Δ, extends st (processDoc env st doc) Δ ∧ inside_window Δ ∧ searches Δ = [] ∧
       downloads Δ = (if reachesDownload doc then [doc] else []) ∧
       skips Δ = (if shouldExclude doc then [doc] else []).
Proof.
  unfold processDoc, reachesDownload.
  destruct (shouldExclude doc); cbn [negb andb].
  { exists [EvSkip doc]. split; [by apply extends_emit | done]. }
  destruct (shouldInclude doc && truthy (DocumentUrl doc)).
  2: { exists []. split; [apply extends_refl | done]. }
  exists [EvDownload doc (pdfName env (length (trace st)) doc)
            (download env (length (trace st)) (or_else (DocumentUrl doc) "")
               (pdfName env (length (trace st)) doc));
          EvWait 1000].
  split; [|done].
  destruct (truthy (download env _ _ _)) eqn:Hsaved;
    split; cbn; rewrite ?Hsaved, <- ?app_assoc, ?app_nil_r; done.
Qed.

Lemma processDocs_spec docs st :
  ∃ Δ, extends st (foldl (processDoc env) st docs) Δ ∧ inside_window Δ ∧ searches Δ = [] ∧
       downloads Δ = filter (fun d => reachesDownload d = true) docs ∧
       skips Δ = filter (fun d => shouldExclude d = true) docs.
Proof.
  revert st. induction docs as [|doc docs IH]; intros st; cbn [foldl].
  { exists []. split; [apply extends_refl | done]. }
  destruct (processDoc_spec st doc) as (Δ & Hext & Hin & Hs & Hd & Hk).
  destruct (IH (processDoc env st doc)) as (Δ' & Hext' & Hin' & Hs' & Hd' & Hk').
  exists (Δ ++ Δ'). split; [by eapply extends_trans|]. split; [by apply inside_window_app|].
  unfold_views. rewrite !omap_app, Hs, Hs', Hd, Hd', Hk, Hk'.
  rewrite !filter_cons. split; [done|].
  split; [by destruct (reachesDownload doc) | by destruct (shouldExclude doc)].
Qed.

Lemma processPage_spec dateFrom dateTo page st :
  let p := request dateFrom dateTo page in
  ∃ Δ st', extends st st' Δ ∧ inside_window Δ ∧ searches Δ = [p] ∧
    downloads Δ = filter (fun d => reachesDownload d = true) (rowsOf env p) ∧
    skips Δ = filter (fun d => shouldExclude d = true) (rowsOf env p) ∧
    processPage env dateFrom dateTo page st =
      if hasRows env p then PageNext st'
      else match thrown env p with
           | Some msg => PageThrew st' msg
           | None => PageBreak st'
           end.
Proof.
  intros p. unfold processPage, hasRows, rowsOf, thrown. fold (request dateFrom dateTo page). fold p.
  destruct (searchDocuments env p) as [msg|body].
  { exists [EvSearch p], (emit (EvSearch p) st). split; [by apply extends_emit | done]. }
  destruct (pageDocs body) as [|doc docs] eqn:Hdocs.
  { exists [EvSearch p; EvPageEmpty page], (emit (EvPageEmpty page) (emit (EvSearch p) st)).
    split; [|done]. split; cbn; rewrite <- ?app_assoc, ?app_nil_r; done. }
  destruct (processDocs_spec (doc :: docs) (emit (EvSearch p) st)) as (Δ & Hext & Hin & Hs & Hd & Hk).
  exists ([EvSearch p] ++ Δ ++ [EvWait 2000]),
    (emit (EvWait 2000) (foldl (processDoc env) (emit (EvSearch p) st) (doc :: docs))).
  split.
  { eapply extends_trans; [by apply extends_emit|].
    eapply extends_trans; [exact Hext | by apply extends_emit]. }
  split.
  { apply (inside_window_app [_]); [done|]. by apply inside_window_app. }
  unfold_views.
  rewrite !omap_app, Hs, Hd, Hk. cbn [omap list_omap searchOf downloadOf skipOf app].
  by rewrite !app_nil_r.
Qed.

Lemma hasRows_thrown p : hasRows env p = true → thrown env p = None.
Proof. unfold hasRows, rowsOf, thrown. by destruct (searchDocuments env p). Qed.

Lemma hasRows_false_rows p : hasRows env p = false → rowsOf env p = [].
Proof. unfold hasRows. by destruct (rowsOf env p). Qed.

Lemma pageRequests_nil dateFrom dateTo maxPages page :
  maxPages < page → pageRequests env dateFrom dateTo maxPages page = [].
Proof. intros H. unfold pageRequests. by rewrite seqZ_nil by lia. Qed.

Lemma pageRequests_cons dateFrom dateTo maxPages page :
  page <= maxPages →
  pageRequests env dateFrom dateTo maxPages page =
    if hasRows env (request dateFrom dateTo page)
    then request dateFrom dateTo page :: pageRequests env dateFrom dateTo maxPages (page + 1)
    else [request dateFrom dateTo page].
Proof.
  intros H. unfold pageRequests. rewrite seqZ_cons by lia. cbn [fmap list_fmap upto_first].
  replace (Z.pred (maxPages - page + 1)) with (maxPages - (page + 1) + 1) by lia.
  replace (Z.succ page) with (page + 1) by lia.
  by destruct (hasRows env (request dateFrom dateTo page)).
Qed.

Lemma pagesLoop_spec dateFrom dateTo maxPages n : ∀ page st,
  Z.to_nat (maxPages - page + 1) = n →
  let reqs := pageRequests env dateFrom dateTo maxPages page in
  let out := pagesLoop env dateFrom dateTo maxPages page st in
  ∃ Δ, extends st out.1 Δ ∧ inside_window Δ ∧ searches Δ = reqs ∧
    downloads Δ = filter (fun d => reachesDownload d = true) (reqs ≫= rowsOf env) ∧
    skips Δ = filter (fun d => shouldExclude d = true) (reqs ≫= rowsOf env) ∧
    out.2 = last reqs ≫= thrown env.
Proof.
  induction n as [|n IH]; intros page st Hn reqs out; subst reqs out;
    rewrite pagesLoop_unfold.
  { rewrite pageRequests_nil by lia. destruct (decide (page <= maxPages)); [lia|].
    exists []. split; [apply extends_refl | done]. }
  rewrite pageRequests_cons by lia. destruct (decide (page <= maxPages)); [|lia].
  destruct (processPage_spec dateFrom dateTo page st) as (Δ & st' & Hext & Hin & Hs & Hd & Hk & ->).
  destruct (hasRows env (request dateFrom dateTo page)) eqn:Hrows.
  - destruct (IH (page + 1) st' ltac:(lia)) as (Δ' & Hext' & Hin' & Hs' & Hd' & Hk' & Hout).
    exists (Δ ++ Δ'). split; [by eapply extends_trans|]. split; [by apply inside_window_app|].
    unfold_views.
    rewrite !omap_app, Hs, Hs', Hd, Hd', Hk, Hk', bind_cons, !filter_app.
    split; [done|]. split; [done|]. split; [done|].
    rewrite Hout. destruct (pageRequests env dateFrom dateTo maxPages (page + 1)) as [|q reqs]; [|done].
    cbn. by rewrite hasRows_thrown.
  - rewrite bind_singleton, (hasRows_false_rows _ Hrows) in *.
    exists Δ. destruct (thrown env (request dateFrom dateTo page)) eqn:Hthrown; cbn; rewrite ?Hthrown; done.
Qed.

Lemma pageRequests_failures dateFrom dateTo maxPages page :
  let reqs := pageRequests env dateFrom dateTo maxPages page in
  omap (thrown env) reqs = option_list (last reqs ≫= thrown env).
Proof.
  apply upto_first_omap. intros p Hp. apply hasRows_thrown. by destruct (hasRows env p).
Qed.

Lemma window_events_nil maxPages : window_events env maxPages [] [].
Proof. done. Qed.

Lemma window_events_app maxPages dates dates' Δ Δ' :
  window_events env maxPages dates Δ → window_events env maxPages dates' Δ' →
  window_events env maxPages (dates ++ dates') (Δ ++ Δ').
Proof.
  intros [Hp Hw Hs Hf Hd Hk] [Hp' Hw' Hs' Hf' Hd' Hk'].
  unfold_views.
  split; unfold_views;
    rewrite !omap_app, ?bind_app, ?filter_app, ?fmap_app; try congruence.
  by rewrite Hw, Hw'.
Qed.

Lemma processWindow_spec maxPages currentDate st :
  ∃ Δ, extends st (processWindow env maxPages currentDate st) Δ ∧
       window_events env maxPages [currentDate] Δ.
Proof.
  unfold processWindow.
  set (st0 := emit (EvPeriod currentDate (currentDate + 2)) st).
  destruct (pagesLoop_spec currentDate (currentDate + 2) maxPages _ 1 st0 eq_refl)
    as (Δ & Hext & [Hp Hf Hw] & Hs & Hd & Hk & Hout).
  fold (windowRequests env maxPages currentDate) in *.
  pose proof (pageRequests_failures currentDate (currentDate + 2) maxPages 1) as Hfail.
  fold (windowRequests env maxPages currentDate) in Hfail. cbn zeta in Hfail.
  destruct (pagesLoop env currentDate (currentDate + 2) maxPages 1 st0) as [st' err].
  cbn [fst snd] in *. rewrite <- Hout in Hfail. clear Hout.
  exists ([EvPeriod currentDate (currentDate + 2)] ++ Δ ++ option_list (EvPeriodError <$> err)).
  split.
  { eapply extends_trans; [by apply extends_emit|]. eapply extends_trans; [exact Hext|].
    destruct err; [by apply extends_emit | apply extends_refl]. }
  unfold_views.
  split; unfold_views;
    rewrite !omap_app, ?Hp, ?Hf, ?Hw, ?Hs, ?Hd, ?Hk, ?bind_singleton, ?Hfail;
    destruct err; cbn; rewrite ?app_nil_r; done.
Qed.

Lemma datesLoop_spec maxPages endDate n : ∀ currentDate st,
  (Z.to_nat (endDate - currentDate + 1) ≤ n)%nat →
  ∃ Δ, extends st (datesLoop env maxPages endDate currentDate st) Δ ∧
       window_events env maxPages (windowsFrom currentDate endDate).*1 Δ.
Proof.
  induction n as [|n IH]; intros currentDate st Hn; rewrite datesLoop_unfold.
  { destruct (decide (currentDate <= endDate)); [lia|]. rewrite windowsFrom_nil by lia.
    exists []. split; [apply extends_refl | apply window_events_nil]. }
  destruct (decide (currentDate <= endDate)).
  2: { rewrite windowsFrom_nil by lia.
       exists []. split; [apply extends_refl | apply window_events_nil]. }
  rewrite windowsFrom_cons by lia.
  destruct (processWindow_spec maxPages currentDate st) as (Δ & Hext & Hw).
  destruct (IH (currentDate + 2) (processWindow env maxPages currentDate st) ltac:(lia))
    as (Δ' & Hext' & Hw').
  exists (Δ ++ Δ'). split; [by eapply extends_trans|].
  by apply (window_events_app _ [_]).
Qed.

Lemma windows_fmap currentDate endDate :
  (fun d => (d, d + 2)) <$> (windowsFrom currentDate endDate).*1 = windowsFrom currentDate endDate.
Proof.
  unfold windowsFrom. rewrite <- !list_fmap_compose. apply list_fmap_ext.
  intros _ i _. cbn. done.
Qed.

(** The shape of a run: the directory is created if it is missing, the
    windows follow, and the ledger is written once, last. *)
Lemma processDateRange_spec startDate endDate maxPages :
  let st := processDateRange env startDate endDate maxPages in
  ∃ Δ t,
    trace st = (if docsDirExists env then [] else [EvMkdirDocs]) ++ Δ ++
               [EvWriteMetadata t (length (results st)) (results st)] ∧
    results st = saved Δ ∧
    window_events env maxPages (windowsFrom startDate endDate).*1 Δ.
Proof.
  unfold processDateRange.
  set (st0 := if docsDirExists env then initial else emit EvMkdirDocs initial).
  destruct (datesLoop_spec maxPages endDate _ startDate st0 (le_n _)) as (Δ & [Ht Hr] & Hw).
  exists Δ, (clock env (length (trace (datesLoop env maxPages endDate startDate st0)))).
  split; [|split; [|done]].
  - cbn. rewrite Ht. subst st0. destruct (docsDirExists env); cbn; by rewrite <- ?app_assoc.
  - cbn. rewrite Hr. subst st0. by destruct (docsDirExists env).
Qed.

End Run.

(** On an arithmetic progression the prefix is a shorter progression: no
    element before its last stops, and its last does unless the list is
    exhausted. *)
Lemma upto_first_seqZ {A} (stop : A → bool) (f : Z → A) n : ∀ a len,
  Z.to_nat len = n →
  ∃ k, 0 <= k <= Z.max 0 len ∧
       upto_first stop (f <$> seqZ a len) = f <$> seqZ a k ∧
       (0 < len → 0 < k) ∧
       (∀ p, a <= p < a + k - 1 → stop (f p) = false) ∧
       (k < len → stop (f (a + k - 1)) = true).
Proof.
  induction n as [|n IH]; intros a len Hn.
  { exists 0. rewrite !seqZ_nil by lia. repeat split; try done; lia. }
  rewrite seqZ_cons by lia. cbn [fmap list_fmap upto_first].
  destruct (stop (f a)) eqn:Ha.
  - exists 1. split; [lia|]. split; [done|]. split; [done|].
    split; [intros; lia|]. intros _. by replace (a + 1 - 1) with a by lia.
  - destruct (IH (Z.succ a) (Z.pred len) ltac:(lia)) as (k & Hk & -> & Hpos & Hbefore & Hlast).
    exists (k + 1). split; [lia|]. split.
    { rewrite (seqZ_cons a (k + 1)) by lia. cbn. by replace (Z.pred (k + 1)) with k by lia. }
    split; [lia|]. split.
    + intros p Hp. destruct (decide (p = a)) as [->|]; [done|]. apply Hbefore. lia.
    + intros Hlt. replace (a + (k + 1) - 1) with (Z.succ a + k - 1) by lia. apply Hlast. lia.
Qed.



Section Requests.
Context (env : Env) (maxPages : Z).

Lemma windowRequests_shape dateFrom :
  ∃ k, 0 <= k <= Z.max 0 maxPages ∧
       windowRequests env maxPages dateFrom = request dateFrom (dateFrom + 2) <$> seqZ 1 k ∧
       (1 <= maxPages → 1 <= k) ∧
       (∀ p, 1 <= p < k → hasRows env (request dateFrom (dateFrom + 2) p) = true) ∧
       (k < maxPages → hasRows env (request dateFrom (dateFrom + 2) k) = false).
Proof.
  unfold windowRequests, pageRequests. replace (maxPages - 1 + 1) with maxPages by lia.
  destruct (upto_first_seqZ (fun p => negb (hasRows env p))
              (request dateFrom (dateFrom + 2)) _ 1 maxPages eq_refl)
    as (k & Hk & -> & Hpos & Hbefore & Hlast).
  exists k. split; [done|]. split; [done|]. split; [lia|]. split.
  - intros p Hp. apply negb_false_iff, Hbefore. lia.
  - intros Hlt. specialize (Hlast Hlt). replace (1 + k - 1) with k in Hlast by lia.
    by apply negb_true_iff.
Qed.

Lemma windowRequests_elem_of dateFrom p :
  p ∈ windowRequests env maxPages dateFrom →
  DateFrom p = dateFrom ∧ DateTo p = dateFrom + 2 ∧ 1 <= Page p <= maxPages.
Proof.
  destruct (windowRequests_shape dateFrom) as (k & Hk & -> & _).
  intros (page & -> & Hpage%elem_of_seqZ)%list_elem_of_fmap. cbn. lia.
Qed.



End Requests.

Lemma windowsFrom_dates currentDate endDate :
  (windowsFrom currentDate endDate).*1 =
    (fun i => currentDate + 2 * i) <$> seqZ 0 ((endDate - currentDate) `div` 2 + 1).
Proof. unfold windowsFrom. rewrite <- list_fmap_compose. by apply list_fmap_ext. Qed.



Lemma seqZ_sorted n : ∀ a len, Z.to_nat len = n → StronglySorted Z.lt (seqZ a len).
Proof.
  induction n as [|n IH]; intros a len Hn.
  { rewrite seqZ_nil by lia. constructor. }
  rewrite seqZ_cons by lia. constructor; [apply IH; lia|].
  apply Forall_seqZ. lia.
Qed.

Lemma windowRequests_sorted env maxPages dateFrom :
  StronglySorted earlier (windowRequests env maxPages dateFrom).
Proof.
  destruct (windowRequests_shape env maxPages dateFrom) as (k & _ & -> & _).
  apply (StronglySorted_fmap _ Z.lt); [|by eapply seqZ_sorted].
  intros x y Hxy. right. by cbn.
Qed.

Lemma requests_sorted env maxPages dates :
  StronglySorted Z.lt dates →
  StronglySorted earlier (dates ≫= windowRequests env maxPages).
Proof.
  induction 1 as [|d dates _ IH Hd]; [constructor|].
  rewrite bind_cons. apply StronglySorted_app_2; [|apply windowRequests_sorted|done].
  intros p q Hp%windowRequests_elem_of (d' & Hq%windowRequests_elem_of & Hd')%list_elem_of_bind.
  rewrite Forall_forall in Hd. specialize (Hd d' Hd'). left. lia.
Qed.

Lemma windowsFrom_dates_sorted currentDate endDate :
  StronglySorted Z.lt (windowsFrom currentDate endDate).*1.
Proof.
  rewrite windowsFrom_dates. apply (StronglySorted_fmap _ Z.lt); [|by eapply seqZ_sorted].
  intros x y Hxy. lia.
Qed.

(** Everything a finished run shows. *)
Lemma run_view env startDate endDate maxPages :
  let st := processDateRange env startDate endDate maxPages in
  let tr := trace st in
  periods tr = windowsFrom startDate endDate ∧
  searches tr = (windowsFrom startDate endDate).*1 ≫= windowRequests env maxPages ∧
  failures tr = omap (thrown env) (searches tr) ∧
  downloads tr = filter (fun d => reachesDownload d = true) (searches tr ≫= rowsOf env) ∧
  skips tr = filter (fun d => shouldExclude d = true) (searches tr ≫= rowsOf env) ∧
  results st = saved tr ∧
  writes tr = [results st] ∧
  ∃ evs t, tr = evs ++ [EvWriteMetadata t (length (results st)) (results st)] ∧
           writes evs = [] ∧ periods evs = windowsFrom startDate endDate.
Proof.
  intros st tr.
  destruct (processDateRange_spec env startDate endDate maxPages)
    as (Δ & t & Htr & Hres & [Hp Hw Hs Hf Hd Hk]).
  fold st in Htr, Hres. fold tr in Htr. rewrite windows_fmap in Hp.
  assert (Hpre : ∀ {B} (f : Event → option B), f EvMkdirDocs = None →
            f (EvWriteMetadata t (length (results st)) (results st)) = None →
            omap f tr = omap f Δ).
  { intros B f H1 H2. rewrite Htr, !omap_app.
    assert (omap f [EvWriteMetadata t (length (results st)) (results st)] = []) as ->
      by (cbn [omap list_omap]; by rewrite H2).
    rewrite app_nil_r. destruct (docsDirExists env); cbn [omap list_omap]; by rewrite ?H1. }
  unfold_views.
  rewrite !Hpre by done. rewrite <- Hs.
  repeat (split; [done|]).
  split.
  { rewrite Htr, !omap_app, Hw.
    by destruct (docsDirExists env). }
  exists ((if docsDirExists env then [] else [EvMkdirDocs]) ++ Δ), t.
  rewrite Htr, <- app_assoc. split; [done|]. rewrite !omap_app, Hw, Hp.
  by destruct (docsDirExists env).
Qed.

End PuppeteerParserFacts.

(** ** PuppeteerParser: the claims *)

Module PuppeteerParserSpec.
Import Js PuppeteerParser Trace Scenarios JsFacts PuppeteerParserFacts.

(** The windows of a run on day numbers: [window[i] = [start + 2·i, start +
    2·i + 2]] for [i = 0 .. (end - start) / 2], in ascending order, each
    beginning on the day the one before ends; their union is [[start, start
    + 2·n]] with [n] their number, and ends one or two days after the end
    date. *)
Lemma windows_by_day_numbers env startDate endDate maxPages :
  startDate <= endDate →
  let ws := periods (trace (processDateRange env startDate endDate maxPages)) in
  let n := (endDate - startDate) `div` 2 + 1 in
  ws = (fun i => (startDate + 2 * i, startDate + 2 * i + 2)) <$> seqZ 0 n ∧
  (∀ i a b c d, ws !! i = Some (a, b) → ws !! S i = Some (c, d) → c = b ∧ a < c) ∧
  (∀ d, (∃ a b, (a, b) ∈ ws ∧ a <= d <= b) ↔ startDate <= d <= startDate + 2 * n) ∧
  endDate < startDate + 2 * n <= endDate + 2.
Proof.
  intros Hle ws n.
  assert (Hws : ws = (fun i => (startDate + 2 * i, startDate + 2 * i + 2)) <$> seqZ 0 n).
  { subst ws. by destruct (run_view env startDate endDate maxPages) as [-> _]. }
  assert (Hn : endDate < startDate + 2 * n <= endDate + 2).
  { subst n. pose proof (Z.mul_div_le (endDate - startDate) 2 ltac:(lia)).
    pose proof (Z.mul_succ_div_gt (endDate - startDate) 2 ltac:(lia)). lia. }
  split; [done|]. rewrite Hws. split; [|split; [|done]].
  - intros i a b c d. rewrite !list_lookup_fmap.
    intros (j & Hj & Heq)%fmap_Some (j' & Hj' & Heq')%fmap_Some.
    injection Heq as -> ->. injection Heq' as -> ->.
    apply lookup_seqZ in Hj as [-> _]. apply lookup_seqZ in Hj' as [-> _]. lia.
  - intros d. split.
    + intros (a & b & (i & Heq & Hi%elem_of_seqZ)%list_elem_of_fmap & Hd).
      injection Heq as -> ->. lia.
    + intros Hd.
      set (i := Z.min ((d - startDate) `div` 2) (n - 1)).
      exists (startDate + 2 * i), (startDate + 2 * i + 2). split.
      * apply list_elem_of_fmap. exists i. split; [done|]. apply elem_of_seqZ.
        assert (0 <= (d - startDate) `div` 2) by (apply Z.div_pos; lia). lia.
      * pose proof (Z.mul_div_le (d - startDate) 2 ltac:(lia)).
        pose proof (Z.mul_succ_div_gt (d - startDate) 2 ltac:(lia)). lia.
Qed.



(** C2 (amended): a download that succeeds always appends one entry to the
    results, whatever entries are there already: the results of a run are
    the entries of its successful downloads, in order and with repetitions,
    and they are what is written to metadata.json.  Nothing makes the
    [url]s of the ledger distinct. *)
Theorem ledger_holds_every_saved_download env startDate endDate maxPages :
  let st := processDateRange env startDate endDate maxPages in
  results st = saved (trace st) ∧
  writes (trace st) = [results st] ∧
  (∀ st' doc path,
     download env (length (trace st')) (or_else (DocumentUrl doc) "")
       (pdfName env (length (trace st')) doc) = Some path →
     reachesDownload doc = true → path ≠ "" →
     results (processDoc env st' doc) =
       results st' ++ [{| caseNumber := CaseNumber doc; title := Title doc; date := Date doc;
                          url := DocumentUrl doc; filepath := path |}]).
Proof.
  intros st. split; [|split].
  - by destruct (run_view env startDate endDate maxPages) as (_ & _ & _ & _ & _ & ? & _).
  - by destruct (run_view env startDate endDate maxPages) as (_ & _ & _ & _ & _ & _ & ? & _).
  - intros st' doc path Hpath Hreach Hne. unfold processDoc, reachesDownload in *.
    destruct (shouldExclude doc); [done|]. cbn [negb andb] in Hreach.
    rewrite Hreach, Hpath. cbn [truthy].
    destruct path as [|c path]; [done|]. reflexivity.
Qed.

(** C2 as stated fails: a document that the portal returns for two windows
    (it is dated on the day they share) is downloaded twice and entered
    twice, and the ledger written holds both entries. *)
Lemma same_url_entered_twice :
  let st := processDateRange repeatingPortal (jan2024 1) (jan2024 3) 40 in
  url <$> results st = [DocumentUrl decision; DocumentUrl decision] ∧
  writes (trace st) = [results st] ∧
  ¬ NoDup (url <$> results st).
Proof.
  split; [by vm_compute|]. split; [by vm_compute|].
  intros Hnd. assert (Hu : url <$> results (processDateRange repeatingPortal (jan2024 1) (jan2024 3) 40)
                      = [DocumentUrl decision; DocumentUrl decision]) by (by vm_compute).
  cbn zeta in Hnd. rewrite Hu in Hnd. apply NoDup_cons in Hnd as [Hnotin _].
  apply Hnotin. by left.
Qed.





(** C6 (amended): for every row a request returns, with [text =
    lowercase(CaseNumber + " " + Title)]: if an exclude keyword is a
    substring of [text] the row is skipped, also when an include keyword
    matches; otherwise it is handed to [downloadPDF] exactly when an include
    keyword is a substring of [text] and the row has a non-empty
    [DocumentUrl]; every other row is dropped.  The documents downloaded in
    a run are the rows that pass this test, in the order of the answers. *)
Theorem classification_of_search_results env startDate endDate maxPages :
  let tr := trace (processDateRange env startDate endDate maxPages) in
  let rows := searches tr ≫= rowsOf env in
  let matches keywords doc :=
    ∃ keyword, keyword ∈ keywords ∧ Spec.is_substring keyword (docText doc) in
  downloads tr = filter (fun d => reachesDownload d = true) rows ∧
  skips tr = filter (fun d => shouldExclude d = true) rows ∧
  ∀ doc,
    docText doc = toLowerCase (or_else (CaseNumber doc) "" +:+ " " +:+ or_else (Title doc) "") ∧
    (shouldExclude doc = true ↔ matches excludeKeywords doc) ∧
    (shouldExclude doc = true → reachesDownload doc = false) ∧
    (reachesDownload doc = true ↔
       ¬ matches excludeKeywords doc ∧ matches includeKeywords doc ∧
       ∃ link, DocumentUrl doc = Some link ∧ link ≠ "").
Proof.
  intros tr rows matches.
  destruct (run_view env startDate endDate maxPages) as (_ & _ & _ & Hd & Hk & _).
  split; [done|]. split; [done|]. intros doc.
  assert (Hmatch : ∀ keywords,
            some (fun keyword => includes keyword (docText doc)) keywords = true ↔
            matches keywords doc).
  { intros keywords. rewrite some_spec. subst matches. cbn beta.
    by setoid_rewrite includes_spec. }
  split; [done|]. split; [apply Hmatch|]. split.
  - unfold reachesDownload. by intros ->.
  - unfold reachesDownload. rewrite !andb_true_iff, negb_true_iff.
    rewrite <- !Hmatch. fold (shouldExclude doc). fold (shouldInclude doc).
    rewrite <- not_true_iff_false.
    assert (Hurl : truthy (DocumentUrl doc) = true ↔ ∃ link, DocumentUrl doc = Some link ∧ link ≠ "").
    { destruct (DocumentUrl doc) as [[|c link]|]; cbn; split; try done.
      - by intros (link & [= <-] & ?).
      - intros _. by eexists.
      - by intros (link & ? & _). }
    by rewrite Hurl.
Qed.

(** C6 as stated fails: a row that matches an include keyword and no exclude
    keyword, but has no [DocumentUrl], is not included: nothing is
    downloaded and nothing is entered. *)
Lemma decision_without_link_is_dropped :
  let st := processDateRange noUrlPortal (jan2024 1) (jan2024 1) 40 in
  searches (trace st) ≫= rowsOf noUrlPortal = [decisionNoUrl] ∧
  shouldExclude decisionNoUrl = false ∧
  shouldInclude decisionNoUrl = true ∧
  downloads (trace st) = [] ∧
  results st = [].
Proof. by vm_compute. Qed.

(** The examples of the specification: a decision is downloaded, a
    postponement is skipped, and so is a ruling on a postponement, although
    it matches an include keyword. *)
Example classification_examples :
  reachesDownload decision = true ∧
  shouldExclude postponement = true ∧
  shouldInclude rulingOnPostponement = true ∧
  shouldExclude rulingOnPostponement = true ∧
  reachesDownload rulingOnPostponement = false.
Proof. by vm_compute. Qed.

(** The end-to-end scenario of the specification: January 1 to 5, 2024, one
    decision and one postponement per window; the ledger holds three
    documents with distinct links. *)
Example end_to_end_scenario :
  let st := processDateRange scenarioPortal (jan2024 1) (jan2024 5) 40 in
  length (periods (trace st)) = 3%nat ∧
  length (results st) = 3%nat ∧
  skips (trace st) = [postponement; postponement; postponement] ∧
  url <$> results st =
    [Some "https://kad.arbitr.ru/Document/Pdf/19723";
     Some "https://kad.arbitr.ru/Document/Pdf/19725";
     Some "https://kad.arbitr.ru/Document/Pdf/19727"].
Proof. by vm_compute. Qed.

(** The requests of a run are sent window after window in ascending date
    order and, within a window, page after page in ascending order. *)
Theorem requests_in_order env startDate endDate maxPages :
  StronglySorted earlier (searches (trace (processDateRange env startDate endDate maxPages))).
Proof.
  destruct (run_view env startDate endDate maxPages) as (_ & -> & _).
  apply requests_sorted, windowsFrom_dates_sorted.
Qed.

(** [getStats] returns, whatever the file is. *)
Lemma getStats_never_throws (file : MetadataFile) : ∃ s, getStats file = Returned s.
Proof.
  unfold getStats, try_catch.
  destruct (if negb (existsSync file) then _ else _); by eexists.
Qed.

(** C10 (amended): [getStats] never throws.  When metadata.json is absent,
    unreadable or unparsable, or holds [null], it returns [{total_documents:
    0, last_update: null}].  When it holds an object, it returns the object's
    [total_documents], or 0 when that field is missing or falsy ([null],
    [false], 0, the empty string), and its [processed_at], or [null] when
    that field is missing or falsy.  Any other parsed value has neither
    field. *)
Theorem getStats_values :
  (∀ file, ∃ s, getStats file = Returned s) ∧
  getStats FileAbsent = Returned noStats ∧
  (∀ msg, getStats (FileUnreadable msg) = Returned noStats) ∧
  (∀ msg, getStats (FileText (Threw msg)) = Returned noStats) ∧
  getStats (FileText (Returned JNull)) = Returned noStats ∧
  (∀ fields, getStats (FileText (Returned (JObject fields))) =
     Returned {| total_documents :=
                   match field "total_documents" fields with
                   | Some v => if truthy_json v then v else JNumber 0
                   | None => JNumber 0
                   end;
                 last_update :=
                   match field "processed_at" fields with
                   | Some v => if truthy_json v then v else JNull
                   | None => JNull
                   end |}) ∧
  (∀ v, (∀ fields, v ≠ JObject fields) → getStats (FileText (Returned v)) = Returned noStats).
Proof.
  split; [apply getStats_never_throws|].
  repeat split; try done.
  intros v Hv. destruct v; try done. by destruct (Hv fields).
Qed.

(** C10 as stated fails: a ledger whose [total_documents] is [false] and
    whose [processed_at] is the empty string has both fields, and [getStats]
    returns 0 and [null] instead of them. *)
Lemma getStats_falsy_fields :
  field "total_documents" falsyLedger = Some (JBool false) ∧
  field "processed_at" falsyLedger = Some (JString "") ∧
  getStats (FileText (Returned (JObject falsyLedger))) = Returned noStats.
Proof. by vm_compute. Qed.

End PuppeteerParserSpec.

(** ** The command dispatcher *)

Module CliSpec.
Import Js PuppeteerParser Cli Scenarios.

(** The [switch] prints one object unless it throws. *)
Lemma dispatch_prints_one (w : World) (args : Args) (cmd : string) :
  match (dispatch w args cmd).2 with
  | Returned objects => length objects = 1%nat
  | Threw _ => True
  end.
Proof.
  unfold dispatch, init.
  repeat match goal with
         | |- context [if ?b then _ else _] => destruct b
         | |- context [match initOutcome w with _ => _ end] => destruct (initOutcome w)
         | |- context [searchOutcome w] => destruct (searchOutcome w)
         | |- context [processOutcome w] => destruct (processOutcome w)
         | |- context [getStats ?f] => destruct (getStats f)
         end; cbn; done.
Qed.

(** Whenever closing the browser does not fail, an invocation prints exactly
    one object and [main] returns normally. *)
Lemma main_one_object_when_close_returns (w : World) (args : Args) :
  closeOutcome w = Returned () →
  length (objects (main w args)) = 1%nat ∧ exitCode (main w args) = 0.
Proof.
  intros Hclose. unfold main.
  pose proof (dispatch_prints_one w args (or_else (command args) "help")) as H.
  destruct (dispatch w args _) as [browser body]. cbn [snd] in H.
  rewrite Hclose. destruct browser; destruct body; cbn; done.
Qed.

(** The lemma at [init] on a host where everything succeeds. *)
Lemma main_one_object_when_close_returns_witness :
  length (objects (main
    {| initOutcome := InitOk; loadCookiesOutcome := true;
       searchOutcome := Returned (BodyData []); processOutcome := Returned [];
       metadataFile := FileAbsent; closeOutcome := Returned () |} initArgs)) = 1%nat.
Proof.
  by destruct (main_one_object_when_close_returns
    {| initOutcome := InitOk; loadCookiesOutcome := true;
       searchOutcome := Returned (BodyData []); processOutcome := Returned [];
       metadataFile := FileAbsent; closeOutcome := Returned () |} initArgs eq_refl).
Defined.

(** No invocation prints fewer than one object or more than two. *)
Lemma main_one_or_two_objects (w : World) (args : Args) :
  (1 <= length (objects (main w args)) <= 2)%nat.
Proof.
  unfold main.
  pose proof (dispatch_prints_one w args (or_else (command args) "help")) as H.
  destruct (dispatch w args _) as [browser body]. cbn [snd] in H.
  destruct browser; [destruct (closeOutcome w)|]; destruct body; cbn;
    rewrite ?length_app; cbn; lia.
Qed.

(** C8 at its failing input: [init] succeeds and prints its object, closing
    the browser in [finally] rejects, so [main] rejects and the start-up
    code prints a second object and exits with code 1: two JSON objects for
    one invocation. *)
Theorem main_init_close_rejects :
  main closeRejects initArgs =
    {| objects := [say true "Браузер инициализирован";
                  fail "Protocol error: Connection closed."];
       exitCode := 1 |} ∧
  length (objects (main closeRejects initArgs)) = 2%nat.
Proof. by vm_compute. Qed.

End CliSpec.

(** * The date range on a host with a time zone *)

(** ** The calendar *)

Module CalendarFacts.
Import Calendar.

Ltac div_lia := Z.div_mod_to_equations; lia.

(** The year of the era and the day of that year, for a day of the era. *)
Lemma doe_parts (doe : Z) :
  0 <= doe < 146097 →
  let yoe := (doe - doe / 1460 + doe / 36524 - doe / 146096) / 365 in
  let doy := doe - (365 * yoe + yoe / 4 - yoe / 100) in
  0 <= yoe < 400 ∧ 0 <= doy <= 365.
Proof. intros H. cbv zeta. div_lia. Qed.

(** [MakeDay] inverts the calendar date of a day number. *)
Lemma days_from_civil_from_days (z : Z) : days_from_civil (civil_from_days z) = z.
Proof.
  unfold civil_from_days. cbv zeta.
  set (z' := z + 719468). set (era := z' / 146097). set (doe := z' - era * 146097).
  assert (Hdoe : 0 <= doe < 146097) by (subst doe era; div_lia).
  pose proof (doe_parts doe Hdoe) as Hparts. cbv zeta in Hparts.
  set (yoe := (doe - doe / 1460 + doe / 36524 - doe / 146096) / 365) in *.
  set (doy := doe - (365 * yoe + yoe / 4 - yoe / 100)) in *.
  set (mp := (5 * doy + 2) / 153).
  assert (Hmp : 0 <= mp <= 11) by (subst mp; div_lia).
  unfold days_from_civil.
  destruct (mp <? 10) eqn:Hlt; [apply Z.ltb_lt in Hlt | apply Z.ltb_ge in Hlt].
  - replace (mp + 3 <=? 2) with false by (symmetry; apply Z.leb_gt; lia).
    replace (2 <? mp + 3) with true by (symmetry; apply Z.ltb_lt; lia).
    replace (yoe + era * 400 + 0) with (yoe + era * 400) by lia.
    replace ((yoe + era * 400) / 400) with era by div_lia.
    replace (yoe + era * 400 - era * 400) with yoe by lia.
    replace (mp + 3 - 3) with mp by lia.
    subst doy doe z'. lia.
  - replace (mp - 9 <=? 2) with true by (symmetry; apply Z.leb_le; lia).
    replace (2 <? mp - 9) with false by (symmetry; apply Z.ltb_ge; lia).
    replace (yoe + era * 400 + 1 - 1) with (yoe + era * 400) by lia.
    replace ((yoe + era * 400) / 400) with era by div_lia.
    replace (yoe + era * 400 - era * 400) with yoe by lia.
    replace (mp - 9 + 9) with mp by lia.
    subst doy doe z'. lia.
Qed.

(** January 1 of the year of a day is not after that day. *)
Lemma year_start_le (z : Z) :
  days_from_civil ((civil_from_days z).1.1, 1, 1) <= z.
Proof.
  unfold civil_from_days. cbv zeta.
  set (z' := z + 719468). set (era := z' / 146097). set (doe := z' - era * 146097).
  assert (Hdoe : 0 <= doe < 146097) by (subst doe era; div_lia).
  pose proof (doe_parts doe Hdoe) as Hparts. cbv zeta in Hparts.
  set (yoe := (doe - doe / 1460 + doe / 36524 - doe / 146096) / 365) in *.
  set (doy := doe - (365 * yoe + yoe / 4 - yoe / 100)) in *.
  set (mp := (5 * doy + 2) / 153).
  assert (Hmp : 0 <= mp <= 11) by (subst mp; div_lia).
  cbn [fst]. unfold days_from_civil.
  change (1 <=? 2) with true. change (2 <? 1) with false. cbv iota.
  change ((153 * (1 + 9) + 2) / 5 + 1 - 1) with 306.
  destruct (mp <? 10) eqn:Hlt; [apply Z.ltb_lt in Hlt | apply Z.ltb_ge in Hlt].
  - replace (mp + 3 <=? 2) with false by (symmetry; apply Z.leb_gt; lia).
    assert (z = era * 146097 + (365 * yoe + yoe / 4 - yoe / 100) + doy - 719468) as Hz
      by (subst doy doe z'; lia).
    rewrite Hz. clear Hz Hmp Hlt. clearbody yoe doy era. div_lia.
  - replace (mp - 9 <=? 2) with true by (symmetry; apply Z.leb_le; lia).
    replace (yoe + era * 400 + 1 - 1) with (yoe + era * 400) by lia.
    replace ((yoe + era * 400) / 400) with era by div_lia.
    replace (yoe + era * 400 - era * 400) with yoe by lia.
    assert (306 <= doy) by (subst mp; div_lia).
    subst doy doe z'. lia.
Qed.

(** The calendar date of the first day of a year, and of the day before. *)
Lemma civil_from_days_new_year (y : Z) :
  civil_from_days (days_from_civil (y, 1, 1)) = (y, 1, 1) ∧
  civil_from_days (days_from_civil (y, 1, 1) - 1) = (y - 1, 12, 31).
Proof.
  unfold days_from_civil.
  change (1 <=? 2) with true. change (2 <? 1) with false. cbv iota zeta.
  change ((153 * (1 + 9) + 2) / 5 + 1 - 1) with 306.
  set (era := (y - 1) / 400). set (yoe := y - 1 - era * 400).
  assert (Hyoe : 0 <= yoe < 400) by (subst yoe era; div_lia).
  set (doe := yoe * 365 + yoe / 4 - yoe / 100 + 306).
  assert (Hdoe : 1 <= doe < 146097) by (subst doe; div_lia).
  assert (Hy : (doe - doe / 1460 + doe / 36524 - doe / 146096) / 365 = yoe ∧
               (doe - 1 - (doe - 1) / 1460 + (doe - 1) / 36524 - (doe - 1) / 146096) / 365 = yoe).
  { subst doe. clearbody yoe. div_lia. }
  destruct Hy as [Hy1 Hy2].
  unfold civil_from_days. cbv zeta. split.
  - replace (era * 146097 + doe - 719468 + 719468) with (doe + era * 146097) by lia.
    rewrite Z.div_add by done. rewrite (Z.div_small doe) by lia.
    replace (doe + era * 146097 - (0 + era) * 146097) with doe by lia.
    rewrite Hy1.
    replace (doe - (365 * yoe + yoe / 4 - yoe / 100)) with 306 by (unfold doe; ring).
    change ((5 * 306 + 2) / 153) with 10. change (10 <? 10) with false. cbv iota.
    change (10 - 9 <=? 2) with true. cbv iota. change (306 - (153 * 10 + 2) / 5 + 1) with 1.
    change (10 - 9) with 1. f_equal. f_equal. unfold yoe. lia.
  - replace (era * 146097 + doe - 719468 - 1 + 719468) with (doe - 1 + era * 146097) by lia.
    rewrite Z.div_add by done. rewrite (Z.div_small (doe - 1)) by lia.
    replace (doe - 1 + era * 146097 - (0 + era) * 146097) with (doe - 1) by lia.
    rewrite Hy2.
    replace (doe - 1 - (365 * yoe + yoe / 4 - yoe / 100)) with 305 by (unfold doe; ring).
    change ((5 * 305 + 2) / 153) with 9. change (9 <? 10) with true. cbv iota.
    change (9 + 3 <=? 2) with false. cbv iota. change (305 - (153 * 9 + 2) / 5 + 1) with 31.
    change (9 + 3) with 12. f_equal. f_equal. unfold yoe. lia.
Qed.

End CalendarFacts.

(** ** The loop on instants and the loop on day numbers *)

Module ZonedFacts.
Import Js Calendar PuppeteerParser Trace Scenarios JsFacts PuppeteerParserFacts CalendarFacts.

Lemma days_from_civil_day (y m d k : Z) :
  days_from_civil (y, m, d + k) = days_from_civil (y, m, d) + k.
Proof. unfold days_from_civil. cbv zeta. lia. Qed.

(** [setDate(getDate() + 2)] is two days later on the local calendar. *)
Lemma setDate_getDate (zone : Zoned.Zone) (t : Z) :
  Zoned.setDate zone t (Zoned.getDate zone t + 2) = Zoned.twoDaysLater zone t.
Proof.
  unfold Zoned.setDate, Zoned.getDate, Zoned.twoDaysLater. cbv zeta.
  set (l := Zoned.LocalTime zone t).
  pose proof (days_from_civil_from_days (l / msPerDay)) as Hday.
  destruct (civil_from_days (l / msPerDay)) as [[y m] d].
  rewrite days_from_civil_day, Hday. f_equal.
  unfold msPerDay. pose proof (Z.div_mod l 86400000 ltac:(lia)). lia.
Qed.

Lemma datesLoop_zoned_unfold zone env maxPages endDate currentDate st :
  Zoned.datesLoop zone env maxPages endDate currentDate st =
    if decide (currentDate <= endDate)
    then Zoned.datesLoop zone env maxPages endDate (Zoned.twoDaysLater zone currentDate)
           (Zoned.processWindow zone env maxPages currentDate st)
    else st.
Proof.
  destruct (decide (currentDate <= endDate)) as [H|H].
  - rewrite Zoned.datesLoop_equation_1. unfold Zoned.datesLoop_unfold_clause_1.
    by destruct (decide (currentDate <= endDate)).
  - rewrite Zoned.datesLoop_equation_1. unfold Zoned.datesLoop_unfold_clause_1.
    by destruct (decide (currentDate <= endDate)).
Qed.

Section Fixed.
Context (zone : Zoned.Zone) (Hfixed : Zoned.fixed_offset zone) (env : Env) (maxPages : Z).

Lemma twoDaysLater_fixed t : Zoned.twoDaysLater zone t = t + 2 * msPerDay.
Proof.
  destruct Hfixed as (minutes & Hu & Hl).
  unfold Zoned.twoDaysLater, Zoned.UTC, Zoned.LocalTime. rewrite Hu, Hl. lia.
Qed.

Lemma isoDay_twoDaysLater t : Zoned.isoDay (Zoned.twoDaysLater zone t) = Zoned.isoDay t + 2.
Proof.
  rewrite twoDaysLater_fixed. unfold Zoned.isoDay, msPerDay.
  replace (t + 2 * 86400000) with (t + 2 * 86400000) by done.
  rewrite Z.div_add by done. done.
Qed.

Lemma processWindow_fixed currentDate st :
  Zoned.processWindow zone env maxPages currentDate st =
    processWindow env maxPages (Zoned.isoDay currentDate) st.
Proof. unfold Zoned.processWindow, processWindow. cbv zeta. by rewrite isoDay_twoDaysLater. Qed.

(** On a host at a fixed offset the loop over instants is the loop over
    day numbers, for every end day that the tests of the two loops agree
    on. *)
Lemma datesLoop_fixed endDate endDay (n : nat) : ∀ currentDate st,
  (Z.to_nat ((endDate - currentDate) / msPerDay + 1) ≤ n)%nat →
  (∀ k, 0 <= k →
     currentDate + k * (2 * msPerDay) <= endDate ↔ Zoned.isoDay currentDate + 2 * k <= endDay) →
  Zoned.datesLoop zone env maxPages endDate currentDate st =
    datesLoop env maxPages endDay (Zoned.isoDay currentDate) st.
Proof.
  induction n as [|n IH]; intros currentDate st Hn Htest;
    rewrite datesLoop_zoned_unfold, datesLoop_unfold;
    pose proof (Htest 0 ltac:(lia)) as H0;
    destruct (decide (currentDate <= endDate)), (decide (Zoned.isoDay currentDate <= endDay));
    try done; try lia; try (exfalso; unfold msPerDay in *; div_lia).
  rewrite processWindow_fixed, <- isoDay_twoDaysLater. apply IH.
  - rewrite twoDaysLater_fixed. unfold msPerDay in *. div_lia.
  - intros k Hk. rewrite isoDay_twoDaysLater, twoDaysLater_fixed.
    specialize (Htest (k + 1) ltac:(lia)). unfold msPerDay in *. lia.
Qed.

(** Date-only arguments. *)
Lemma processDateRange_date_only startDate endDate :
  Zoned.processDateRange zone env (startDate * msPerDay) (endDate * msPerDay) maxPages =
    processDateRange env startDate endDate maxPages.
Proof.
  unfold Zoned.processDateRange, processDateRange. cbv zeta.
  rewrite (datesLoop_fixed (endDate * msPerDay) endDate _ (startDate * msPerDay) _ (le_n _)).
  - unfold Zoned.isoDay. by rewrite Z.div_mul by done.
  - intros k Hk. unfold Zoned.isoDay. rewrite Z.div_mul by done. unfold msPerDay. lia.
Qed.


End Fixed.

End ZonedFacts.

(** ** The windows of a run *)

Module ZonedSpec.
Import Js Calendar PuppeteerParser Trace Scenarios PuppeteerParserFacts ZonedFacts.

Lemma fixedZone_fixed minutes range : Zoned.fixed_offset (Zoned.fixedZone minutes range).
Proof. by exists minutes. Qed.

(** C1 (amended): on a host at a fixed offset from UTC (one without
    daylight-saving time), for date-only arguments with start date <= end
    date, [processDateRange] announces (and queries) the windows
    [window[i] = [start + 2·i, start + 2·i + 2]] for [i = 0 .. (end - start)
    / 2]: the width is the constant 2 and the end of a window is never cut
    down to the end date.  The windows are in ascending order, each begins
    on the day the one before ends, and their union is exactly [[start,
    start + 2·n]] with [n] the number of windows, which contains [[start,
    end]] and ends one or two days after the end date.
    ([daylight_saving_windows] shows that the host matters.) *)
Theorem processDateRange_windows zone env startDate endDate maxPages :
  Zoned.fixed_offset zone →
  startDate <= endDate →
  let ws := periods (trace (Zoned.processDateRange zone env
                              (startDate * msPerDay) (endDate * msPerDay) maxPages)) in
  let n := (endDate - startDate) `div` 2 + 1 in
  ws = (fun i => (startDate + 2 * i, startDate + 2 * i + 2)) <$> seqZ 0 n ∧
  (∀ i a b c d, ws !! i = Some (a, b) → ws !! S i = Some (c, d) → c = b ∧ a < c) ∧
  (∀ d, (∃ a b, (a, b) ∈ ws ∧ a <= d <= b) ↔ startDate <= d <= startDate + 2 * n) ∧
  endDate < startDate + 2 * n <= endDate + 2.
Proof.
  intros Hfixed Hle. rewrite (processDateRange_date_only zone Hfixed).
  by apply PuppeteerParserSpec.windows_by_day_numbers.
Qed.

(** The theorem on a host in UTC at January 1 to 5, 2024: three windows. *)
Lemma processDateRange_windows_witness :
  Zoned.fixed_offset Zoned.utcZone ∧ jan2024 1 <= jan2024 5 ∧
  periods (trace (Zoned.processDateRange Zoned.utcZone emptyPortal
                    (jan2024 1 * msPerDay) (jan2024 5 * msPerDay) 40)) =
    (fun i => (jan2024 1 + 2 * i, jan2024 1 + 2 * i + 2)) <$> seqZ 0 3.
Proof.
  split; [by exists 0|]. split; [by vm_compute|].
  apply (processDateRange_windows Zoned.utcZone emptyPortal (jan2024 1) (jan2024 5) 40);
    [by exists 0 | by vm_compute].
Defined.

(** C1 as stated fails: on a host in UTC, for January 1 to 5, 2024 the third
    window is January 5 to 7, where the specification has January 5 to 5;
    its end is past the end date. *)
Lemma last_window_exceeds_end_date :
  periods (trace (Zoned.processDateRange Zoned.utcZone emptyPortal
                    (jan2024 1 * msPerDay) (jan2024 5 * msPerDay) 40)) =
    [(jan2024 1, jan2024 3); (jan2024 3, jan2024 5); (jan2024 5, jan2024 7)] ∧
  Spec.windows 2 (jan2024 1) (jan2024 5) =
    [(jan2024 1, jan2024 3); (jan2024 3, jan2024 5); (jan2024 5, jan2024 5)] ∧
  jan2024 5 < jan2024 7.
Proof. by vm_compute. Qed.

(** Where the offset changes, two days of local time are not two days of
    UTC.  In Berlin the run from March 30 to April 2, 2024 has the windows
    March 30 to 31 and March 31 to April 2 (the second begins at 23:00 UTC,
    and the instant after it is past the end date), and the run from October
    26 to 28, 2024 has the one window October 26 to 28 (the instant after it
    is 01:00 UTC of October 28). *)
Example daylight_saving_windows :
  periods (trace (Zoned.processDateRange Zoned.berlin2024 emptyPortal
                    (parseISODate (2024, 3, 30)) (parseISODate (2024, 4, 2)) 40)) =
    [(days_from_civil (2024, 3, 30), days_from_civil (2024, 3, 31));
     (days_from_civil (2024, 3, 31), days_from_civil (2024, 4, 2))] ∧
  periods (trace (Zoned.processDateRange Zoned.berlin2024 emptyPortal
                    (parseISODate (2024, 10, 26)) (parseISODate (2024, 10, 28)) 40)) =
    [(days_from_civil (2024, 10, 26), days_from_civil (2024, 10, 28))] ∧
  ¬ Zoned.fixed_offset Zoned.berlin2024.
Proof.
  split; [by vm_compute|]. split; [by vm_compute|].
  intros (minutes & Hutc & _).
  pose proof (Hutc 0) as Hwinter. pose proof (Hutc (parseISODate (2024, 7, 1))) as Hsummer.
  vm_compute in Hwinter, Hsummer. congruence.
Qed.

End ZonedSpec.

(** * Further properties of the code *)

(** ** More on a run: bounds, the ledger, pacing *)

Module RunFacts.
Import Js Calendar PuppeteerParser Trace Pacing Scenarios JsFacts PuppeteerParserFacts ZonedFacts.







Lemma saved_from_download tr entry :
  entry ∈ saved tr →
  ∃ doc, doc ∈ downloads tr ∧ caseNumber entry = CaseNumber doc ∧ title entry = Title doc ∧
         date entry = Date doc ∧ url entry = DocumentUrl doc ∧ filepath entry ≠ "".
Proof.
  unfold saved, downloads. intros (ev & Hev & Hsaved)%list_elem_of_omap.
  destruct ev as [| | | | |doc filename s| | |]; try done. cbn in Hsaved.
  destruct (truthy s) eqn:Hs; [|done]. injection Hsaved as <-.
  exists doc. split; [apply list_elem_of_omap; by exists (EvDownload doc filename s)|].
  cbn. repeat split. by destruct s as [[|]|].
Qed.

Lemma length_saved_le tr : (length (saved tr) ≤ length (downloads tr))%nat.
Proof.
  unfold saved, downloads. induction tr as [|ev tr IH]; [done|]. cbn.
  destruct ev as [| | | | |doc filename s| | |]; cbn; try done.
  destruct (truthy s); cbn; lia.
Qed.

(** Every entry of the returned ledger copies the case number, the title,
    the date and the link of a row that the portal returned in this run, and
    that row passed the filter: no exclude keyword, an include keyword and a
    link that is not empty; its file path is not empty.  So the ledger is no
    longer than the list of downloads, which is no longer than the list of
    rows. *)
Theorem ledger_entries_passed_the_filter env startDate endDate maxPages :
  let st := processDateRange env startDate endDate maxPages in
  let rows := searches (trace st) ≫= rowsOf env in
  (∀ entry, entry ∈ results st →
     ∃ doc, doc ∈ rows ∧
       caseNumber entry = CaseNumber doc ∧ title entry = Title doc ∧
       date entry = Date doc ∧ url entry = DocumentUrl doc ∧
       shouldExclude doc = false ∧ shouldInclude doc = true ∧
       (∃ link, url entry = Some link ∧ link ≠ "") ∧ filepath entry ≠ "") ∧
  (length (results st) ≤ length (downloads (trace st)) ≤ length rows)%nat.
Proof.
  intros st rows.
  destruct (run_view env startDate endDate maxPages) as (_ & _ & _ & Hd & _ & Hr & _).
  fold st in Hd, Hr. fold rows in Hd. split.
  - intros entry Hin. rewrite Hr in Hin.
    destruct (saved_from_download _ _ Hin) as (doc & Hdoc & Hc & Ht & Hdt & Hu & Hf).
    rewrite Hd in Hdoc. apply list_elem_of_filter in Hdoc as [Hreach Hdoc].
    exists doc. split; [done|]. repeat (split; [done|]).
    unfold reachesDownload in Hreach.
    apply andb_true_iff in Hreach as [Hex [Hinc Hurl]%andb_true_iff].
    apply negb_true_iff in Hex. split; [done|]. split; [done|]. split; [|done].
    rewrite Hu. by apply truthy_spec.
  - rewrite Hr. split; [apply length_saved_le|]. rewrite Hd. apply length_filter.
Qed.

Lemma saved_nil_of_downloads tr : downloads tr = [] → saved tr = [].
Proof.
  intros H. pose proof (length_saved_le tr) as Hle. rewrite H in Hle.
  destruct (saved tr); [done | cbn in Hle; lia].
Qed.

(** An inverted date range, or a page cap below 1, sends no request and
    downloads nothing; metadata.json is written all the same, with an empty
    list of documents.  On an inverted range that write (after the creation
    of the documents directory, if it is missing) is all that happens. *)
Theorem nothing_to_do_writes_an_empty_ledger env startDate endDate maxPages :
  endDate < startDate ∨ maxPages < 1 →
  let st := processDateRange env startDate endDate maxPages in
  searches (trace st) = [] ∧ downloads (trace st) = [] ∧ results st = [] ∧
  writes (trace st) = [[]] ∧
  (endDate < startDate →
     trace st = (if docsDirExists env then [] else [EvMkdirDocs]) ++
                [EvWriteMetadata (clock env (if docsDirExists env then 0 else 1)%nat) 0 []]).
Proof.
  intros Hcase st.
  destruct (run_view env startDate endDate maxPages) as (_ & Hs & _ & Hd & _ & Hr & Hw & _).
  fold st in Hs, Hd, Hr, Hw.
  assert (Hnone : searches (trace st) = []).
  { rewrite Hs. clear Hs. destruct Hcase as [Hlt|Hmax].
    - by rewrite windowsFrom_nil.
    - generalize ((windowsFrom startDate endDate).*1). intros dates.
      induction dates as [|d dates IH]; [done|].
      rewrite bind_cons, IH, app_nil_r.
      destruct (windowRequests_shape env maxPages d) as (k & Hk & -> & _).
      by rewrite seqZ_nil by lia. }
  rewrite Hnone in Hd. cbn in Hd.
  assert (Hres : results st = []) by (rewrite Hr; by apply saved_nil_of_downloads).
  rewrite Hw, Hres. repeat (split; [done|]).
  intros Hlt. subst st. unfold processDateRange in *.
  rewrite datesLoop_unfold in *. destruct (decide (startDate <= endDate)); [lia|].
  by destruct (docsDirExists env).
Qed.

(** The theorem on the range from January 5 back to January 1, 2024. *)
Lemma nothing_to_do_writes_an_empty_ledger_witness :
  writes (trace (processDateRange repeatingPortal (jan2024 5) (jan2024 1) 40)) = [[]].
Proof.
  assert (H : jan2024 1 < jan2024 5 ∨ 40 < 1) by (left; by vm_compute).
  by destruct (nothing_to_do_writes_an_empty_ledger repeatingPortal (jan2024 5) (jan2024 1) 40 H)
    as (_ & _ & _ & ? & _).
Defined.

Lemma download_then_wait_app l1 l2 :
  download_then_wait l1 → download_then_wait l2 → download_then_wait (l1 ++ l2).
Proof.
  intros H1 H2 i doc f o Hi.
  destruct (decide (i < length l1)%nat) as [Hlt|Hge].
  - rewrite lookup_app_l in Hi by done. specialize (H1 _ _ _ _ Hi).
    pose proof (lookup_lt_Some _ _ _ H1). by rewrite lookup_app_l.
  - rewrite lookup_app_r in Hi by lia. specialize (H2 _ _ _ _ Hi).
    rewrite lookup_app_r by lia. by replace (S i - length l1)%nat with (S (i - length l1)) by lia.
Qed.

Lemma wait_then_next_page_snoc tr e :
  wait_then_next_page tr →
  (∀ p, e = EvSearch p → Page p = 1 ∨ last tr = Some (EvWait 2000)) →
  wait_then_next_page (tr ++ [e]).
Proof.
  intros Htr He i p Hi Hp.
  destruct (decide (i < length tr)%nat) as [Hlt|Hge].
  - rewrite lookup_app_l in Hi by done. destruct (Htr _ _ Hi Hp) as (j & -> & Hj).
    exists j. split; [done|]. rewrite lookup_app_l; [done|lia].
  - rewrite lookup_app_r in Hi by lia.
    destruct (i - length tr)%nat as [|n] eqn:Hn; [|done]. injection Hi as ->.
    destruct (He p eq_refl) as [?|Hlast]; [done|].
    rewrite last_lookup in Hlast.
    destruct tr as [|x tr']; [done|]. cbn [length] in *.
    exists (length tr'). split; [lia|]. rewrite lookup_app_l; [done | cbn; lia].
Qed.

Lemma wait_then_next_page_app tr Δ :
  wait_then_next_page tr → Forall (fun e => searchOf e = None) Δ →
  wait_then_next_page (tr ++ Δ).
Proof.
  intros Htr. induction Δ as [|e Δ IH] using rev_ind; intros HΔ; [by rewrite app_nil_r|].
  apply Forall_app in HΔ as [HΔ He]. apply Forall_inv in He.
  rewrite app_assoc. apply wait_then_next_page_snoc; [by apply IH|].
  intros p ->. by cbn in He.
Qed.


Lemma paced_app st st' Δ :
  trace st' = trace st ++ Δ → download_then_wait Δ →
  Forall (fun e => searchOf e = None) Δ → paced st → paced st'.
Proof.
  intros Ht HΔ Hq [H1 H2]. unfold paced. rewrite Ht.
  split; [by apply download_then_wait_app | by apply wait_then_next_page_app].
Qed.

Lemma download_then_wait_quiet Δ :
  Forall (fun e => downloadOf e = None) Δ → download_then_wait Δ.
Proof.
  intros H i doc f o Hi. rewrite Forall_forall in H.
  assert (Hin : EvDownload doc f o ∈ Δ) by (apply list_elem_of_lookup; by exists i).
  by specialize (H _ Hin).
Qed.

Section PacedRun.
Context (env : Env).

Lemma processDoc_events st doc :
  ∃ Δ, trace (processDoc env st doc) = trace st ++ Δ ∧ download_then_wait Δ ∧
       Forall (fun e => searchOf e = None) Δ.
Proof.
  unfold processDoc. destruct (shouldExclude doc).
  { exists [EvSkip doc]. split; [done|]. split; [|by repeat constructor].
    apply download_then_wait_quiet. by repeat constructor. }
  destruct (shouldInclude doc && truthy (DocumentUrl doc)).
  2: { exists []. rewrite app_nil_r. split; [done|]. split; [|done].
       by apply download_then_wait_quiet. }
  exists [EvDownload doc (pdfName env (length (trace st)) doc)
            (download env (length (trace st)) (or_else (DocumentUrl doc) "")
               (pdfName env (length (trace st)) doc));
          EvWait 1000].
  split; [|split; [|by repeat constructor]].
  - destruct (truthy (download env _ _ _)); cbn; by rewrite <- app_assoc.
  - intros [|[|i]] d f o Hi; by simplify_list_eq.
Qed.

Lemma processDocs_events docs st :
  ∃ Δ, trace (foldl (processDoc env) st docs) = trace st ++ Δ ∧ download_then_wait Δ ∧
       Forall (fun e => searchOf e = None) Δ.
Proof.
  revert st. induction docs as [|doc docs IH]; intros st; cbn [foldl].
  { exists []. rewrite app_nil_r. split; [done|]. split; [|done].
    by apply download_then_wait_quiet. }
  destruct (processDoc_events st doc) as (Δ & Ht & Hd & Hq).
  destruct (IH (processDoc env st doc)) as (Δ' & Ht' & Hd' & Hq').
  exists (Δ ++ Δ'). rewrite Ht', Ht, app_assoc. split; [done|].
  split; [by apply download_then_wait_app | by apply Forall_app].
Qed.

Lemma processPage_paced dateFrom dateTo page st :
  paced st → page = 1 ∨ last (trace st) = Some (EvWait 2000) →
  match processPage env dateFrom dateTo page st with
  | PageNext st' => paced st' ∧ last (trace st') = Some (EvWait 2000)
  | PageBreak st' => paced st'
  | PageThrew st' _ => paced st'
  end.
Proof.
  intros [Hd Hw] Hpage. unfold processPage.
  set (p := {| Page := page; DateFrom := dateFrom; DateTo := dateTo |}).
  assert (H1 : paced (emit (EvSearch p) st)).
  { split; cbn.
    - apply download_then_wait_app; [done|]. apply download_then_wait_quiet. by repeat constructor.
    - apply wait_then_next_page_snoc; [done|]. intros q [= <-]. done. }
  destruct (searchDocuments env p) as [msg|body]; [done|].
  destruct (pageDocs body) as [|doc docs].
  { eapply (paced_app _ _ [EvPageEmpty page]); [done| |by repeat constructor|done].
    apply download_then_wait_quiet. by repeat constructor. }
  destruct (processDocs_events (doc :: docs) (emit (EvSearch p) st)) as (Δ & Ht & HΔ & Hq).
  split; [|cbn; by rewrite last_snoc].
  eapply (paced_app _ _ (Δ ++ [EvWait 2000])); [|
    apply download_then_wait_app; [done|apply download_then_wait_quiet; by repeat constructor] |
    apply Forall_app; split; [done | by repeat constructor] | exact H1].
  cbn [emit trace]. by rewrite Ht, app_assoc.
Qed.

Lemma pagesLoop_paced dateFrom dateTo maxPages n : ∀ page st,
  Z.to_nat (maxPages - page + 1) = n →
  paced st → page = 1 ∨ last (trace st) = Some (EvWait 2000) →
  paced (pagesLoop env dateFrom dateTo maxPages page st).1.
Proof.
  induction n as [|n IH]; intros page st Hn Hp Hpage; rewrite pagesLoop_unfold.
  { destruct (decide (page <= maxPages)); [lia | done]. }
  destruct (decide (page <= maxPages)); [|done].
  pose proof (processPage_paced dateFrom dateTo page st Hp Hpage) as Hstep.
  destruct (processPage env dateFrom dateTo page st) as [st'|st' msg|st']; try done.
  destruct Hstep as [Hp' Hlast]. apply IH; [lia | done | by right].
Qed.

Lemma processWindow_paced maxPages currentDate st :
  paced st → paced (processWindow env maxPages currentDate st).
Proof.
  intros Hp. unfold processWindow.
  set (st0 := emit (EvPeriod currentDate (currentDate + 2)) st).
  assert (H0 : paced st0).
  { eapply (paced_app _ _ [EvPeriod currentDate (currentDate + 2)]); [done| |by repeat constructor|done].
    apply download_then_wait_quiet. by repeat constructor. }
  pose proof (pagesLoop_paced currentDate (currentDate + 2) maxPages _ 1 st0 eq_refl H0 (or_introl eq_refl)) as H.
  destruct (pagesLoop env currentDate (currentDate + 2) maxPages 1 st0) as [st' [msg|]]; [|done].
  eapply (paced_app _ _ [EvPeriodError msg]); [done| |by repeat constructor|exact H].
  apply download_then_wait_quiet. by repeat constructor.
Qed.

Lemma datesLoop_paced maxPages endDate n : ∀ currentDate st,
  (Z.to_nat (endDate - currentDate + 1) ≤ n)%nat →
  paced st → paced (datesLoop env maxPages endDate currentDate st).
Proof.
  induction n as [|n IH]; intros currentDate st Hn Hp; rewrite datesLoop_unfold;
    destruct (decide (currentDate <= endDate)); try done; [lia|].
  apply IH; [lia|]. by apply processWindow_paced.
Qed.

End PacedRun.

(** Pacing: every call of [downloadPDF] is immediately followed by a wait
    of 1000 ms, and every request for a page other than the first comes
    immediately after a wait of 2000 ms. *)
Theorem run_is_paced env startDate endDate maxPages :
  let tr := trace (processDateRange env startDate endDate maxPages) in
  (∀ i doc filename outcome,
     tr !! i = Some (EvDownload doc filename outcome) → tr !! S i = Some (EvWait 1000)) ∧
  (∀ i p, tr !! i = Some (EvSearch p) → Page p ≠ 1 →
          ∃ j, i = S j ∧ tr !! j = Some (EvWait 2000)).
Proof.
  unfold processDateRange.
  set (st0 := if docsDirExists env then initial else emit EvMkdirDocs initial).
  assert (H0 : paced st0).
  { subst st0. destruct (docsDirExists env).
    - split; [intros i ? ? ? Hi | intros i ? Hi]; by destruct i.
    - split; [intros [|i] ? ? ? Hi | intros [|i] ? Hi]; done. }
  pose proof (datesLoop_paced env maxPages endDate _ startDate st0 (le_n _) H0) as H1.
  set (st1 := datesLoop env maxPages endDate startDate st0) in *.
  eapply (paced_app _ _ [EvWriteMetadata _ _ _]); [done| |by repeat constructor|exact H1].
  apply download_then_wait_quiet. by repeat constructor.
Qed.

End RunFacts.

(** ** More on the dispatcher *)

Module CliFacts.
Import Js PuppeteerParser Cli CliCommands Scenarios PuppeteerParserSpec.

Lemma eqb_commands (cmd : string) :
  cmd ∉ commands →
  String.eqb cmd "init" = false ∧ String.eqb cmd "loadCookies" = false ∧
  String.eqb cmd "searchDocuments" = false ∧ String.eqb cmd "processDateRange" = false ∧
  String.eqb cmd "getStats" = false ∧ String.eqb cmd "close" = false.
Proof.
  intros Hcmd. unfold commands in Hcmd.
  repeat split; apply String.eqb_neq; intros ->; apply Hcmd; set_solver.
Qed.

(** A command that is not one of the six never launches the browser: the
    invocation prints the error that names it and ends normally, whatever the
    options are.  With no command at all the name is "help". *)
Theorem unknown_command_is_reported (w : World) (args : Args) :
  commandOf args ∉ commands →
  main w args =
    {| objects := [fail ("Неизвестная команда: " +:+ commandOf args)]; exitCode := 0 |}.
Proof.
  intros Hcmd. unfold main. fold (commandOf args).
  destruct (eqb_commands _ Hcmd) as (H1 & H2 & H3 & H4 & H5 & H6).
  unfold dispatch. by rewrite H1, H2, H3, H4, H5, H6.
Qed.

(** The theorem on an invocation without a command. *)
Lemma unknown_command_is_reported_witness :
  main closeRejects
    {| command := None; cookies_file := None; params := None;
       start_date := None; end_date := None; max_pages := None |} =
    {| objects := [fail "Неизвестная команда: help"]; exitCode := 0 |}.
Proof.
  apply (unknown_command_is_reported closeRejects
    {| command := None; cookies_file := None; params := None;
       start_date := None; end_date := None; max_pages := None |}).
  unfold commands. cbn. intros H. repeat (apply elem_of_cons in H as [H|H]; [done|]).
  by apply elem_of_nil in H.
Defined.



End CliFacts.

(** ** The construction of the parser *)

Module CliProcessFacts.
Import Js PuppeteerParser Cli CliCommands Scenarios PuppeteerParserSpec.

(** Where the parser can be constructed, an invocation is what [Cli.main]
    has. *)
Lemma main_constructed (p : CliProcess.Process) (w : World) (args : Args) dir :
  CliProcess.newPuppeteerParser p = Returned dir → CliProcess.main p w args = main w args.
Proof.
  intros Hnew. unfold CliProcess.main, main, CliProcess.dispatch. rewrite Hnew.
  by destruct (bool_decide _).
Qed.

Lemma newPuppeteerParser_returns (p : CliProcess.Process) :
  (∃ dir, CliProcess.newPuppeteerParser p = Returned dir) ↔
  truthy (CliProcess.DOCS_DIR p) = true ∨ ∃ workingDirectory, CliProcess.cwd p = Returned workingDirectory.
Proof.
  unfold CliProcess.newPuppeteerParser. destruct (truthy (CliProcess.DOCS_DIR p)).
  - split; [by left | intros _; by eexists].
  - destruct (CliProcess.cwd p) as [msg|workingDirectory]; cbn.
    + split; [by intros [? ?] | by intros [?|[? ?]]].
    + split; [intros _; right; by eexists | intros _; by eexists].
Qed.

(** The [getStats] command never launches the browser and always prints
    exactly one object and ends with exit code 0.  The object carries the
    statistics, with [success: true], exactly when the parser can be
    constructed, that is when [DOCS_DIR] is set and not empty or
    [process.cwd()] returns, and then whatever metadata.json is; when the
    constructor throws, the object is the failure with the constructor's
    message. *)
Theorem getStats_command_prints_one_object
    (p : CliProcess.Process) (w : World) (args : Args) :
  commandOf args = "getStats" →
  ∃ out,
    CliProcess.main p w args = {| objects := [out]; exitCode := 0 |} ∧
    match CliProcess.newPuppeteerParser p with
    | Returned _ =>
        ∃ stats, getStats (metadataFile w) = Returned stats ∧ out = give (DataStats stats)
    | Threw msg => out = fail msg
    end ∧
    (success out = true ↔
     truthy (CliProcess.DOCS_DIR p) = true ∨
     ∃ workingDirectory, CliProcess.cwd p = Returned workingDirectory).
Proof.
  intros Hcmd. pose proof (newPuppeteerParser_returns p) as Hreturns.
  unfold CliProcess.main, CliProcess.dispatch. fold (commandOf args). rewrite Hcmd.
  rewrite bool_decide_eq_true_2 by (unfold commands; repeat constructor).
  destruct (CliProcess.newPuppeteerParser p) as [msg|dir].
  - exists (fail msg). split; [done|]. split; [done|]. split; [done|].
    intros Hp. by destruct (proj2 Hreturns Hp).
  - destruct (getStats_never_throws (metadataFile w)) as [stats Hstats].
    exists (give (DataStats stats)). cbn. rewrite Hstats. cbn.
    split; [done|]. split; [by exists stats|]. split; [|done].
    intros _. apply Hreturns. by exists dir.
Qed.

(** The theorem in a process whose working directory has been removed:
    the command fails. *)
Lemma getStats_command_prints_one_object_witness :
  CliProcess.main CliProcess.removedCwd closeRejects
    {| command := Some "getStats"; cookies_file := None; params := None;
       start_date := None; end_date := None; max_pages := None |} =
    {| objects := [fail "ENOENT: no such file or directory, uv_cwd"]; exitCode := 0 |}.
Proof.
  destruct (getStats_command_prints_one_object CliProcess.removedCwd closeRejects
    {| command := Some "getStats"; cookies_file := None; params := None;
       start_date := None; end_date := None; max_pages := None |} eq_refl)
    as (out & Hmain & Hout & _).
  cbn in Hout. by rewrite Hmain, Hout.
Defined.

End CliProcessFacts.

(** ** More on the validation of the cookies *)

Module CookieFacts.
Import Js CookieExtractor CookieReport JsFacts.

Lemma length_append (a b : string) :
  String.length (a +:+ b) = (String.length a + String.length b)%nat.
Proof.
  induction a as [|c a IH]; [done|].
  change (String c a +:+ b) with (String c (a +:+ b)). cbn. by rewrite IH.
Qed.

Lemma length_take_string n s : (String.length (take_string n s) ≤ n)%nat.
Proof.
  revert s. induction n as [|n IH]; intros [|c s]; cbn; try lia.
  specialize (IH s). lia.
Qed.

Lemma checkCookie_critical cookies v name descr :
  criticalCookies (checkCookie cookies v (name, descr)) =
    match cookies !! name with
    | Some (String c s) => <[name := foundEntry descr (String c s)]> (criticalCookies v)
    | _ => criticalCookies v
    end.
Proof.
  unfold checkCookie. destruct (cookies !! name) as [[|c s]|]; cbn; try done.
  all: by destruct (String.eqb name "pr_fp").
Qed.

Lemma checkCookie_keeps_fresh cookies v n0 d0 n :
  n ≠ n0 → criticalCookies v !! n = None →
  criticalCookies (checkCookie cookies v (n0, d0)) !! n = None.
Proof.
  intros Hne Hn. rewrite checkCookie_critical.
  destruct (cookies !! n0) as [[|c s]|]; try done. by rewrite lookup_insert_ne.
Qed.

Lemma checkTable_critical cookies table : ∀ v name,
  NoDup table.*1 →
  (∀ n, n ∈ table.*1 → criticalCookies v !! n = None) →
  criticalCookies (foldl (checkCookie cookies) v table) !! name =
    match list_find (fun entry => entry.1 = name) table with
    | Some (_, (_, descr)) =>
        match cookies !! name with
        | Some (String c s) => Some (foundEntry descr (String c s))
        | _ => None
        end
    | None => criticalCookies v !! name
    end.
Proof.
  induction table as [|[n0 d0] table IH]; intros v name Hnd Hfresh; [done|].
  rewrite fmap_cons in Hnd, Hfresh. cbn [fst] in Hnd, Hfresh.
  apply NoDup_cons in Hnd as [Hn0 Hnd].
  cbn [foldl]. rewrite IH; [|done|].
  2: { intros n Hn. apply checkCookie_keeps_fresh.
       - by intros ->.
       - apply Hfresh. by right. }
  cbn [list_find].
  match goal with |- context [decide ?P] => destruct (decide P) as [Heq|Hne] end.
  - cbn [fst] in Heq. subst n0.
    assert (list_find (λ entry : string * string, entry.1 = name) table = None) as Hnone.
    { apply list_find_None. apply Forall_forall. intros [n d] Hin Heq. cbn [fst] in Heq. subst n.
      apply Hn0. apply list_elem_of_fmap. by exists (name, d). }
    rewrite Hnone. cbn [fmap option_fmap option_map].
    rewrite checkCookie_critical.
    assert (criticalCookies v !! name = None) as Hv by (apply Hfresh; by left).
    destruct (cookies !! name) as [[|c s]|]; try done. by rewrite lookup_insert_eq.
  - cbn [fst] in Hne.
    destruct (list_find _ table) as [[i [n d]]|] eqn:Hfind; [done|].
    cbn [fmap option_fmap option_map].
    rewrite checkCookie_critical.
    destruct (cookies !! n0) as [[|c s]|]; try done. by rewrite lookup_insert_ne.
Qed.

Lemma checkTable_account cookies table : ∀ v,
  NoDup table.*1 →
  (∀ n, n ∈ table.*1 → criticalCookies v !! n = None) →
  let v' := foldl (checkCookie cookies) v table in
  (size (criticalCookies v') + length (errors v') + length (warnings v') =
   size (criticalCookies v) + length (errors v) + length (warnings v) + length table)%nat.
Proof.
  induction table as [|[n0 d0] table IH]; intros v Hnd Hfresh; [cbn; lia|].
  rewrite fmap_cons in Hnd, Hfresh. cbn [fst] in Hnd, Hfresh.
  apply NoDup_cons in Hnd as [Hn0 Hnd].
  cbn [foldl length]. cbn zeta in IH. rewrite IH; [|done|].
  2: { intros n Hn. apply checkCookie_keeps_fresh.
       - by intros ->.
       - apply Hfresh. by right. }
  assert (Hnone : criticalCookies v !! n0 = None) by (apply Hfresh; by left).
  destruct (CookieExtractorSpec.checkCookie_fields cookies v (n0, d0)) as (_ & -> & ->).
  rewrite checkCookie_critical. unfold errorFor, warningFor. cbn [fst snd].
  destruct (cookies !! n0) as [[|c s]|]; cbn [truthy truthy_string].
  2: { rewrite map_size_insert_None by done. rewrite !app_nil_r. lia. }
  all: destruct (String.eqb n0 "pr_fp"); rewrite ?length_app; cbn [length]; rewrite ?app_nil_r; lia.
Qed.

Lemma table_names_NoDup : NoDup criticalCookieTable.*1.
Proof. by apply (bool_decide_unpack (NoDup criticalCookieTable.*1)). Qed.

Lemma validateCookies_critical cookies :
  criticalCookies (validateCookies cookies) =
    criticalCookies (foldl (checkCookie cookies)
      {| isValid := true; errors := []; warnings := [];
         foundCookies := (map_to_list cookies).*1; criticalCookies := ∅ |} criticalCookieTable).
Proof. unfold validateCookies. by destruct (size cookies <? 5)%nat. Qed.

(** The report on the critical cookies: [criticalCookies] has an entry for
    a name exactly when the name is one of the four of the table and the jar
    holds it with a non-empty value; the entry has [found: true], the
    description of the table and the first 20 characters of the value (its
    bytes here; a cookie value is ASCII) followed by three dots, so it never
    shows more of a cookie than that. *)
Theorem critical_cookies_report (cookies : gmap string string) (name : string) (entry : CriticalCookie) :
  criticalCookies (validateCookies cookies) !! name = Some entry ↔
  ∃ descr cookieValue,
    (name, descr) ∈ criticalCookieTable ∧
    cookies !! name = Some cookieValue ∧ cookieValue ≠ "" ∧
    entry = {| found := true; description := descr;
               value := take_string 20 cookieValue +:+ "..." |} ∧
    (String.length (value entry) ≤ 23)%nat.
Proof.
  rewrite validateCookies_critical, checkTable_critical; [|apply table_names_NoDup|done].
  assert (Hlen : ∀ descr v, (String.length (value (foundEntry descr v)) ≤ 23)%nat).
  { intros descr v. unfold foundEntry. cbn [value]. rewrite length_append.
    pose proof (length_take_string 20 v). change (String.length "...") with 3%nat. lia. }
  split.
  - destruct (list_find _ _) as [[i [n descr]]|] eqn:Hfind; [|done].
    apply list_find_Some in Hfind as (Hi & Hn & _). cbn in Hn. subst n.
    destruct (cookies !! name) as [[|c s]|] eqn:Hc; try done. intros [= <-].
    exists descr, (String c s). split; [apply list_elem_of_lookup; by exists i|].
    repeat split; [done | apply Hlen].
  - intros (descr & v & Hin & Hc & Hv & -> & _).
    destruct (list_find (λ e : string * string, e.1 = name) criticalCookieTable)
      as [[i [n descr']]|] eqn:Hfind.
    + apply list_find_Some in Hfind as (Hi & Hn & _). cbn in Hn. subst n.
      assert (descr' = descr) as ->.
      { apply list_elem_of_lookup in Hin as [j Hj].
        assert (i = j) as ->; [|congruence].
        eapply NoDup_lookup; [apply table_names_NoDup | |];
          rewrite list_lookup_fmap; [by rewrite Hi | by rewrite Hj]. }
      rewrite Hc. by destruct v.
    + apply (proj1 (list_find_None _ _)) in Hfind. rewrite Forall_forall in Hfind.
      by destruct (Hfind _ Hin).
Qed.

Lemma validateCookies_account (cookies : gmap string string) :
  let v := validateCookies cookies in
  (size (criticalCookies v) + length (errors v) + length (warnings v) =
   4 + (if (size cookies <? 5)%nat then 1 else 0))%nat.
Proof.
  intros v.
  pose proof (checkTable_account cookies criticalCookieTable
    {| isValid := true; errors := []; warnings := [];
       foundCookies := (map_to_list cookies).*1; criticalCookies := ∅ |}
    table_names_NoDup (fun n _ => lookup_empty n)) as Hacc.
  cbn zeta in Hacc. cbn [criticalCookies errors warnings length] in Hacc.
  rewrite map_size_empty in Hacc.
  subst v. unfold validateCookies.
  change (length criticalCookieTable) with 4%nat in Hacc.
  destruct (size cookies <? 5)%nat; cbn [criticalCookies errors warnings];
    rewrite ?length_app; cbn [length]; lia.
Qed.

(** Each of the four critical cookies is accounted for exactly once, as a
    found entry, as the error or as a warning; a jar of fewer than five
    cookies adds one warning, the last one; there is at most one error. *)
Theorem every_critical_cookie_is_accounted_for (cookies : gmap string string) :
  let v := validateCookies cookies in
  (size (criticalCookies v) + length (errors v) + length (warnings v) =
   4 + (if (size cookies <? 5)%nat then 1 else 0))%nat ∧
  (length (errors v) ≤ 1)%nat ∧
  ((size cookies < 5)%nat → last (warnings v) = Some (fewCookies (size cookies))).
Proof.
  intros v.
  destruct (CookieExtractorSpec.validateCookies_fields cookies) as (_ & He & _).
  fold v in He. split; [|split].
  - apply validateCookies_account.
  - rewrite He. unfold errorFor. cbn [fst snd].
    destruct (truthy _); [cbn; lia|]. destruct (String.eqb _ _); cbn; lia.
  - intros Hlt. subst v. unfold validateCookies.
    apply Nat.ltb_lt in Hlt. rewrite Hlt. cbn [warnings]. by rewrite last_snoc.
Qed.

End CookieFacts.

(** ** More on [getApiDates] *)

Module ApiDatesFacts.
Import Js Calendar CookieExtractor Scenarios CalendarFacts.

Lemma parseISODate_toISODate (ms : Z) :
  parseISODate (toISODate ms) = ms / msPerDay * msPerDay.
Proof. unfold parseISODate, toISODate. by rewrite days_from_civil_from_days. Qed.

(** With two parseable arguments the answer is the two UTC calendar days,
    the earlier one first: the arguments are exchanged exactly when the UTC
    day of [dateTo] is before the UTC day of [dateFrom], whatever the time
    of day and the time zone of the host. *)
Theorem getApiDates_orders_utc_days (h : Host) (a b : Z) :
  getApiDates h (ArgInstant a) (ArgInstant b) =
    if b / msPerDay <? a / msPerDay
    then {| DateFrom := Some (toISODate b); DateTo := Some (toISODate a) |}
    else {| DateFrom := Some (toISODate a); DateTo := Some (toISODate b) |}.
Proof.
  unfold getApiDates. cbn [formatDate or_date].
  rewrite !parseISODate_toISODate.
  assert (Hcmp : (b / msPerDay * msPerDay <? a / msPerDay * msPerDay) =
                 (b / msPerDay <? a / msPerDay)).
  { unfold msPerDay.
    destruct (b / 86400000 <? a / 86400000) eqn:Hlt;
      [apply Z.ltb_lt in Hlt; apply Z.ltb_lt | apply Z.ltb_ge in Hlt; apply Z.ltb_ge]; lia. }
  by rewrite Hcmp.
Qed.

(** Without usable arguments, on a host whose local time is at a fixed
    offset of less than a day from UTC and whose current year is not one of
    the years 0..99 that
    [new Date(year, 0, 1)] reads as 1900 + year: [DateTo] is today's UTC
    date; [DateFrom] is January 1 of the current local year on a host at or
    west of UTC, and December 31 of the year before on every host east of
    UTC; the two are never exchanged. *)
Theorem getApiDates_defaults (h : Host) (dateFrom dateTo : DateArg) :
  formatDate dateFrom = None →
  formatDate dateTo = None →
  -1440 < tzOffsetMinutes h < 1440 →
  ¬ 0 <= getFullYear h (nowMs h) <= 99 →
  getApiDates h dateFrom dateTo =
    {| DateFrom := Some (if 0 <? tzOffsetMinutes h
                         then (getFullYear h (nowMs h) - 1, 12, 31)
                         else (getFullYear h (nowMs h), 1, 1));
       DateTo := Some (toISODate (nowMs h)) |}.
Proof.
  intros Hfrom Hto Htz Hyear. unfold getApiDates. cbv zeta. rewrite Hfrom, Hto.
  cbn [formatDate or_date]. rewrite !parseISODate_toISODate.
  set (year := getFullYear h (nowMs h)) in *.
  set (start := days_from_civil (year, 1, 1)).
  assert (Hlocal : newDateLocal h year 0 1 = start * msPerDay - tzOffsetMinutes h * msPerMinute).
  { unfold newDateLocal.
    replace ((0 <=? year) && (year <=? 99)) with false; [done|].
    symmetry. apply andb_false_iff.
    destruct (decide (0 <= year)); [right; apply Z.leb_gt | left; apply Z.leb_gt]; lia. }
  assert (Hstart : start <= (nowMs h + tzOffsetMinutes h * msPerMinute) / msPerDay).
  { pose proof (year_start_le ((nowMs h + tzOffsetMinutes h * msPerMinute) / msPerDay)) as Hle.
    subst start year. unfold getFullYear.
    by destruct (civil_from_days _) as [[y m] d]. }
  destruct (civil_from_days_new_year year) as [Hjan Hdec]. fold start in Hjan, Hdec.
  rewrite Hlocal. clear Hlocal.
  assert (Hday : (start * msPerDay - tzOffsetMinutes h * msPerMinute) / msPerDay =
                 if 0 <? tzOffsetMinutes h then start - 1 else start).
  { unfold msPerDay, msPerMinute. clearbody start.
    destruct (0 <? tzOffsetMinutes h) eqn:Heast;
      [apply Z.ltb_lt in Heast | apply Z.ltb_ge in Heast]; div_lia. }
  assert (Hdate : toISODate (start * msPerDay - tzOffsetMinutes h * msPerMinute) =
                  if 0 <? tzOffsetMinutes h then (year - 1, 12, 31) else (year, 1, 1)).
  { unfold toISODate. rewrite Hday. by destruct (0 <? tzOffsetMinutes h). }
  rewrite Hday, Hdate.
  assert (Hle : (if 0 <? tzOffsetMinutes h then start - 1 else start) <= nowMs h / msPerDay).
  { unfold msPerDay, msPerMinute in *. clearbody start year. clear Hday Hdate.
    destruct (0 <? tzOffsetMinutes h) eqn:Heast;
      [apply Z.ltb_lt in Heast | apply Z.ltb_ge in Heast]; div_lia. }
  replace (nowMs h / msPerDay * msPerDay <?
           (if 0 <? tzOffsetMinutes h then start - 1 else start) * msPerDay) with false; [done|].
  symmetry. apply Z.ltb_ge. unfold msPerDay in *. lia.
Qed.

(** The theorem on a host three hours east of UTC on 2025-06-15. *)
Lemma getApiDates_defaults_witness :
  getApiDates moscowHost ArgMissing ArgInvalid =
    {| DateFrom := Some (2024, 12, 31); DateTo := Some (2025, 6, 15) |}.
Proof.
  apply (getApiDates_defaults moscowHost ArgMissing ArgInvalid); vm_compute;
    try done; try (split; done); intros [_ H]; by apply H.
Defined.

End ApiDatesFacts.

(** ** The command line *)

Module ParseArgsFacts.
Import Js PuppeteerParser ParseArgs.

Lemma starts_with_prefix a s : starts_with a s = true → s = a +:+ drop_string (String.length a) s.
Proof.
  revert s. induction a as [|c a IH]; intros s H; [done|].
  destruct s as [|c' s]; [done|]. cbn in H.
  destruct (Ascii.eqb_spec c c') as [->|]; [|done].
  change (String c' a +:+ ?x) with (String c' (a +:+ x)). cbn. f_equal. by apply IH.
Qed.

Lemma starts_with_app a s : starts_with a (a +:+ s) = true.
Proof.
  induction a as [|c a IH]; [done|].
  change (String c a +:+ s) with (String c (a +:+ s)). cbn. by rewrite Ascii.eqb_refl.
Qed.

Lemma drop_string_app a s : drop_string (String.length a) (a +:+ s) = s.
Proof. induction a as [|c a IH]; [done|]. by change (String c a +:+ s) with (String c (a +:+ s)). Qed.

Lemma field_app key l1 l2 :
  field key (l1 ++ l2) = match field key l2 with Some v => Some v | None => field key l1 end.
Proof.
  unfold field. rewrite foldl_app. generalize (foldl
    (λ (found : option Json) (kv : string * Json), if String.eqb kv.1 key then Some kv.2 else found)
    None l1). intros o.
  revert o. induction l2 as [|[k v] l2 IH] using rev_ind; intros o; [by destruct o|].
  rewrite !foldl_app. cbn. destruct (String.eqb k key); [done|]. apply IH.
Qed.
#[local] Arguments starts_with : simpl never.
#[local] Arguments drop_string : simpl never.
#[local] Arguments valueAfter : simpl never.
#[local] Arguments withNext : simpl never.

Lemma withNext_cons2 a b rest : withNext (a :: b :: rest) = (a, Some b) :: withNext (b :: rest).
Proof. done. Qed.

Lemma scan_cons2 fs a b rest :
  scan fs (a :: b :: rest) =
    if starts_with "--" a then
      if truthy_string b && negb (starts_with "--" b)
      then (drop_string 2 a, optionValue fs b) :: scan fs rest
      else (drop_string 2 a, JBool true) :: scan fs (b :: rest)
    else scan fs (b :: rest).
Proof. done. Qed.

Lemma scan_value fs b rest :
  truthy_string b && negb (starts_with "--" b) = true → scan fs (b :: rest) = scan fs rest.
Proof.
  intros [_ Hb%negb_true_iff]%andb_true_iff.
  change (scan fs (b :: rest)) with
    (if starts_with "--" b then
       match rest with
       | [] => [(drop_string 2 b, JBool true)]
       | nextArg :: rest' =>
           if truthy_string nextArg && negb (starts_with "--" nextArg)
           then (drop_string 2 b, optionValue fs nextArg) :: scan fs rest'
           else (drop_string 2 b, JBool true) :: scan fs rest
       end
     else scan fs rest).
  by rewrite Hb.
Qed.

Lemma omap_cons_match {A B} (f : A → option B) x l :
  omap f (x :: l) = match f x with Some y => y :: omap f l | None => omap f l end.
Proof. done. Qed.

Lemma scan_withNext_le fs (n : nat) : ∀ args, (length args ≤ n)%nat →
  scan fs args =
    omap (fun '(arg, next) =>
            if starts_with "--" arg then Some (drop_string 2 arg, valueAfter fs next) else None)
         (withNext args).
Proof.
  induction n as [|n IH]; intros [|a [|b rest]] Hlen; cbn [length] in Hlen; try lia; try done.
  - change (withNext [a]) with [(a, @None string)]. cbn.
    by destruct (starts_with "--" a).
  - rewrite withNext_cons2, omap_cons_match, scan_cons2.
    rewrite <- (IH (b :: rest)) by (cbn [length]; lia).
    destruct (starts_with "--" a) eqn:Ha; [|done].
    unfold valueAfter.
    destruct (truthy_string b && negb (starts_with "--" b)) eqn:Hb; [|done].
    by rewrite scan_value.
Qed.

Lemma scan_withNext fs args :
  scan fs args =
    omap (fun '(arg, next) =>
            if starts_with "--" arg then Some (drop_string 2 arg, valueAfter fs next) else None)
         (withNext args).
Proof. by apply (scan_withNext_le fs (length args)). Qed.

Lemma withNext_fst args : (withNext args).*1 = args.
Proof.
  unfold withNext. apply fst_zip. destruct args as [|a rest]; [cbn; lia|].
  cbn [fmap list_fmap tail]. rewrite length_app, length_fmap. cbn. lia.
Qed.

Lemma scan_keys fs args key v :
  (key, v) ∈ scan fs args → "--" +:+ key ∈ args.
Proof.
  rewrite scan_withNext. intros ([arg next] & Hin & Hf)%list_elem_of_omap.
  destruct (starts_with "--" arg) eqn:Harg; [|done]. injection Hf as <- _.
  pose proof (starts_with_prefix "--" arg Harg) as Hprefix.
  change (String.length "--") with 2%nat in Hprefix. rewrite <- Hprefix.
  rewrite <- (withNext_fst args). apply list_elem_of_fmap. by exists (arg, next).
Qed.

Lemma field_None key (l : list (string * Json)) :
  (∀ v, (key, v) ∉ l) → field key l = None.
Proof.
  induction l as [|[k v] l IH] using rev_ind; intros Hkey; [done|].
  rewrite field_app. cbn.
  destruct (String.eqb_spec k key) as [->|Hne].
  - destruct (Hkey v). apply elem_of_app. right. by left.
  - apply IH. intros v' Hin. apply (Hkey v'). apply elem_of_app. by left.
Qed.

Lemma field_cons key k v (l : list (string * Json)) :
  field key ((k, v) :: l) =
    match field key l with
    | Some v' => Some v'
    | None => if String.eqb k key then Some v else None
    end.
Proof. change ((k, v) :: l) with ([(k, v)] ++ l). rewrite field_app. unfold field. by cbn. Qed.

Lemma scan_option_tokens fs options :
  Forall (fun kv => truthy_string kv.2 && negb (starts_with "--" kv.2) = true) options →
  scan fs (optionTokens options) = (fun kv => (kv.1, optionValue fs kv.2)) <$> options.
Proof.
  induction 1 as [|[k v] options Hv _ IH]; [done|].
  unfold optionTokens. rewrite bind_cons. fold (optionTokens options).
  cbn [fst snd app] in *. rewrite scan_cons2, starts_with_app, Hv, IH, fmap_cons.
  cbn [fst snd]. by rewrite (drop_string_app "--" k : drop_string 2 ("--" +:+ k) = k).
Qed.

Lemma scan2_option_tokens fs options :
  scan2 fs (optionTokens options) =
    (fun kv => (kv.1, Some (optionValue fs kv.2))) <$> options.
Proof.
  induction options as [|[k v] options IH]; [done|].
  unfold optionTokens. rewrite bind_cons. fold (optionTokens options).
  cbn [fst snd app]. cbn [scan2 head fmap option_fmap option_map].
  rewrite starts_with_app, IH, fmap_cons. cbn [fst snd app].
  by rewrite (drop_string_app "--" k : drop_string 2 ("--" +:+ k) = k).
Qed.

Lemma scan2_after_command fs cmd options :
  starts_with "--" cmd = false →
  Forall (fun kv => starts_with "--" kv.2 = false) options →
  scan2 fs (cmd :: optionTokens options) = [].
Proof.
  intros Hcmd Hopts. revert cmd Hcmd.
  induction Hopts as [|[k v] options Hv _ IH]; intros cmd Hcmd.
  - cbn. by rewrite Hcmd.
  - unfold optionTokens. rewrite bind_cons. fold (optionTokens options).
    cbn [fst snd app] in *.
    change (scan2 fs (cmd :: ("--" +:+ k) :: v :: optionTokens options)) with
      ((if starts_with "--" cmd
        then [(drop_string 2 cmd, optionValue fs <$> Some ("--" +:+ k))] else []) ++
       scan2 fs (v :: optionTokens options)).
    rewrite Hcmd. by apply IH.
Qed.

(** The loop of the first version, which steps by one or by two, treats a
    token by what it is and not by where it stands: every token that starts
    with [--] is an option, and gets the next token as its value when that
    token is not empty and is no option itself, and [true] otherwise; every
    other token is passed over.  A first token that is no option is stored
    as [command] and as [_] before the options. *)
Theorem parseArgs_reads_every_option (fs : Files) (argv : list string) :
  let options args :=
    omap (fun '(arg, next) =>
            if starts_with "--" arg then Some (drop_string 2 arg, valueAfter fs next) else None)
         (withNext args) in
  parseArgs fs argv =
    match argv with
    | first :: rest =>
        if starts_with "--" first then options argv
        else ("command", JString first) :: ("_", JString first) :: options rest
    | [] => []
    end.
Proof.
  intros options. subst options. cbv beta. destruct argv as [|first rest]; [done|].
  unfold parseArgs. destruct (starts_with "--" first); cbn [negb]; by rewrite scan_withNext.
Qed.

(** On a command line without the options [--command], [--_] and
    [--__proto__], the command that [main] dispatches on is the first token
    when that token is not empty and is no option, and [help] in every other
    case, whatever the options and the files they name. *)
Theorem command_is_the_first_token (fs : Files) (argv : list string) :
  "--command" ∉ argv → "--_" ∉ argv → "--__proto__" ∉ argv →
  commandValue (parseArgs fs argv) =
    JString match argv with
            | first :: _ =>
                if truthy_string first && negb (starts_with "--" first) then first else "help"
            | [] => "help"
            end.
Proof.
  intros Hcommand Hunderscore _.
  assert (Hnone : ∀ args key, "--" +:+ key ∉ args → field key (scan fs args) = None).
  { intros args key Hkey. apply field_None. intros v Hin. by apply Hkey, (scan_keys fs args key v). }
  destruct argv as [|first rest]; [done|].
  unfold parseArgs, commandValue. destruct (starts_with "--" first) eqn:Hfirst; cbn [negb].
  - rewrite !Hnone by done. rewrite andb_false_r. reflexivity.
  - rewrite !field_cons, !Hnone
      by (intros Hin; first [apply Hcommand; right; exact Hin | apply Hunderscore; right; exact Hin]).
    rewrite andb_true_r. destruct first; reflexivity.
Qed.

(** The theorem on [processDateRange --start_date 2024-01-01]. *)
Lemma command_is_the_first_token_witness :
  commandValue (parseArgs {| pathExists := fun _ => false; readJson := fun _ => Threw "ENOENT" |}
                          ["processDateRange"; "--start_date"; "2024-01-01"]) =
    JString "processDateRange".
Proof.
  apply (command_is_the_first_token
           {| pathExists := fun _ => false; readJson := fun _ => Threw "ENOENT" |}
           ["processDateRange"; "--start_date"; "2024-01-01"]);
    refine (bool_decide_unpack _ _); by vm_compute.
Defined.

(** On a command line of the usual form, a command followed by options
    that each have a value (not empty and not starting with [--]), the first
    version stores the command and every option with its value, in order. *)
Theorem parseArgs_usual_command_line (fs : Files) (cmd : string) (options : list (string * string)) :
  starts_with "--" cmd = false →
  Forall (fun kv => truthy_string kv.2 && negb (starts_with "--" kv.2) = true) options →
  parseArgs fs (cmd :: optionTokens options) =
    ("command", JString cmd) :: ("_", JString cmd) ::
    ((fun kv => (kv.1, optionValue fs kv.2)) <$> options).
Proof.
  intros Hcmd Hopts. unfold parseArgs. rewrite Hcmd. cbn [negb].
  by rewrite scan_option_tokens.
Qed.

(** The theorem on [searchDocuments --params p.json --cookies_file c]. *)
Lemma parseArgs_usual_command_line_witness :
  parseArgs {| pathExists := fun _ => true; readJson := fun _ => Returned (JObject []) |}
            ["searchDocuments"; "--params"; "p.json"; "--cookies_file"; "c"] =
    [("command", JString "searchDocuments"); ("_", JString "searchDocuments");
     ("params", JObject []); ("cookies_file", JString "c")].
Proof.
  apply (parseArgs_usual_command_line
           {| pathExists := fun _ => true; readJson := fun _ => Returned (JObject []) |}
           "searchDocuments" [("params", "p.json"); ("cookies_file", "c")]).
  - reflexivity.
  - repeat constructor.
Defined.

(** The second version, whose loop steps by two, reads the options only
    when they stand at the even positions: on [--key value ...] alone it
    stores every option with the token after it; after a command in the
    first position every option stands at an odd position, nothing is
    stored, and [main] dispatches on [help]. *)
Theorem parseArgs2_needs_options_first (fs : Files) (cmd : string) (options : list (string * string)) :
  starts_with "--" cmd = false →
  Forall (fun kv => starts_with "--" kv.2 = false) options →
  parseArgs2 fs (optionTokens options) =
    ((fun kv => (kv.1, Some (optionValue fs kv.2))) <$> options) ∧
  parseArgs2 fs (cmd :: optionTokens options) = [] ∧
  commandValue2 (parseArgs2 fs (cmd :: optionTokens options)) = JString "help".
Proof.
  intros Hcmd Hopts. unfold parseArgs2.
  rewrite scan2_option_tokens, scan2_after_command by done. done.
Qed.

(** The theorem on [init --cookies_file c.json]. *)
Lemma parseArgs2_needs_options_first_witness :
  parseArgs2 {| pathExists := fun _ => false; readJson := fun _ => Threw "ENOENT" |}
             ["--cookies_file"; "c.json"] = [("cookies_file", Some (JString "c.json"))] ∧
  parseArgs2 {| pathExists := fun _ => false; readJson := fun _ => Threw "ENOENT" |}
             ["init"; "--cookies_file"; "c.json"] = [] ∧
  commandValue2 (parseArgs2 {| pathExists := fun _ => false; readJson := fun _ => Threw "ENOENT" |}
                            ["init"; "--cookies_file"; "c.json"]) = JString "help".
Proof.
  apply (parseArgs2_needs_options_first
           {| pathExists := fun _ => false; readJson := fun _ => Threw "ENOENT" |}
           "init" [("cookies_file", "c.json")]).
  - reflexivity.
  - repeat constructor.
Defined.

End ParseArgsFacts.

(** ** The collector *)

Module CookieCollectorFacts.
Import Js CookieExtractor CookieCollector CookieFacts.

Lemma toObject_snoc cookies cookie : toObject (cookies ++ [cookie]) = store (toObject cookies) cookie.
Proof. unfold toObject. by rewrite foldl_app. Qed.

Lemma snoc_eq_middle {A} (l : list A) x before y after :
  l ++ [x] = before ++ y :: after →
  (after = [] ∧ l = before ∧ x = y) ∨
  (∃ after', after = after' ++ [x] ∧ l = before ++ y :: after').
Proof.
  destruct after as [|z after _] using rev_ind.
  - intros [-> ->]%app_inj_tail. by left.
  - rewrite app_comm_cons, app_assoc. intros [-> ->]%app_inj_tail. right. by exists after.
Qed.

Lemma last_of_name_snoc (cookies : list Cookie) (n v name value : string) :
  (∃ before after, cookies ++ [(n, v)] = before ++ (name, value) :: after ∧ name ∉ after.*1) ↔
  (n = name ∧ v = value) ∨
  (n ≠ name ∧ ∃ before after, cookies = before ++ (name, value) :: after ∧ name ∉ after.*1).
Proof.
  split.
  - intros (before & after & Heq & Hnot).
    apply snoc_eq_middle in Heq as [(-> & -> & [= -> ->])|(after' & -> & ->)]; [by left|].
    right. rewrite fmap_app in Hnot. split.
    + intros ->. apply Hnot, elem_of_app. right. by left.
    + exists before, after'. split; [done|]. intros Hin. apply Hnot, elem_of_app. by left.
  - intros [[-> ->]|(Hne & before & after & -> & Hnot)].
    + exists cookies, []. split; [done|]. apply not_elem_of_nil.
    + exists before, (after ++ [(n, v)]). split; [by rewrite <- app_assoc|].
      rewrite fmap_app. intros [Hin|Hin%list_elem_of_singleton]%elem_of_app; [done|].
      by apply Hne.
Qed.

Lemma toObject_lookup cookies name value :
  toObject cookies !! name = Some value ↔
  name ≠ "__proto__" ∧
  ∃ before after, cookies = before ++ (name, value) :: after ∧ name ∉ after.*1.
Proof.
  induction cookies as [|[n v] cookies IH] using rev_ind.
  - split; [done|]. intros (_ & before & after & Heq & _). by destruct before.
  - rewrite toObject_snoc, last_of_name_snoc. unfold store. cbn [fst snd].
    destruct (String.eqb_spec n "__proto__") as [->|Hproto].
    + rewrite IH. split.
      * intros (Hne & Hlast). split; [done|]. right. split; [by intros <-|done].
      * intros (Hne & [[<- _]|[_ Hlast]]); done.
    + destruct (decide (n = name)) as [->|Hne].
      * rewrite lookup_insert_eq. split.
        -- intros [= ->]. split; [done|]. by left.
        -- intros (_ & [[_ ->]|[? _]]); done.
      * rewrite lookup_insert_ne by done. rewrite IH. split.
        -- intros (Hp & Hlast). split; [done|]. by right.
        -- intros (Hp & [[? _]|[_ Hlast]]); done.
Qed.

(** The object built from the browser's cookies holds, under every name but
    [__proto__], the value of the last cookie of that name, and nothing
    under [__proto__]: cookies of one name (of several paths or domains) are
    merged into one entry, so the object has at most as many entries as
    there are cookies. *)
Theorem extracted_cookie_is_the_last_of_its_name
    (cookies : list Cookie) (name value : string) :
  (toObject cookies !! name = Some value ↔
   name ≠ "__proto__" ∧
   ∃ before after, cookies = before ++ (name, value) :: after ∧ name ∉ after.*1) ∧
  (size (toObject cookies) ≤ length cookies)%nat.
Proof.
  split; [apply toObject_lookup|].
  induction cookies as [|[n v] cookies IH] using rev_ind; [done|].
  rewrite toObject_snoc, length_app. unfold store. cbn [fst snd length].
  destruct (String.eqb n "__proto__"); [lia|].
  destruct (toObject cookies !! n) eqn:Hn.
  - rewrite map_size_insert_Some by done. lia.
  - rewrite map_size_insert_None by done. lia.
Qed.

(** The cookies collected from the browser are valid exactly when the last
    cookie named [pr_fp] in the browser's list has a value that is not
    empty: an earlier [pr_fp] with a value does not make up for a later one
    without. *)
Theorem collected_cookies_are_valid_iff (cookies : list Cookie) :
  isValid (validateCookies (toObject cookies)) = true ↔
  ∃ before value after,
    cookies = before ++ ("pr_fp", value) :: after ∧ ("pr_fp" ∉ after.*1) ∧ value ≠ "".
Proof.
  destruct (CookieExtractorSpec.validateCookies_fields (toObject cookies)) as (-> & _).
  split.
  - destruct (toObject cookies !! "pr_fp") as [value|] eqn:Hjar; [|done].
    apply toObject_lookup in Hjar as (_ & before & after & -> & Hnot).
    intros Hvalue. exists before, value, after. repeat split; [done|]. by intros ->.
  - intros (before & value & after & Heq & Hnot & Hvalue).
    assert (toObject cookies !! "pr_fp" = Some value) as ->.
    { apply toObject_lookup. split; [done|]. by exists before, after. }
    by destruct value.
Qed.

(** Whenever the browser starts and [extractCookies] returns, the collector
    prints a result with [success: true] first, whatever the validation
    found and whatever [saveCookies] returned: [stats.isValid] tells whether
    [pr_fp] was found, the counters of [stats] add up to the four critical
    cookies (and the warning for a small jar), and the exit code is 0 unless
    closing the browser fails after that. *)
Theorem collector_reports_success_for_invalid_cookies (s : Session) (jar : gmap string string) :
  initOutcome s = Cli.InitOk →
  extractCookies (page s) = Returned jar →
  ∃ stats,
    (main s).1 !! 0%nat = Some (Collected jar (validateCookies jar) stats) ∧
    total_cookies stats = size jar ∧
    statsIsValid stats = truthy (jar !! "pr_fp") ∧
    (critical_cookies stats + statsErrors stats + statsWarnings stats =
     4 + (if (size jar <? 5)%nat then 1 else 0))%nat ∧
    (length (main s).1 = if bool_decide ((main s).2 = 0) then 1%nat else 2%nat) ∧
    ((main s).2 = 0 ↔ ∃ u, closeOutcome s = Returned u).
Proof.
  intros Hinit Hjar. unfold main, collect. rewrite Hinit, Hjar. cbn [mbind completion_bind mret completion_ret].
  eexists. split; [by destruct (closeOutcome s)|].
  split; [done|]. split.
  { cbn [statsIsValid]. by destruct (CookieExtractorSpec.validateCookies_fields jar) as (-> & _). }
  split; [apply validateCookies_account|].
  destruct (closeOutcome s) as [msg|u]; cbn; split; try done.
  - split; [done|]. by intros [u [=]].
  - split; [|done]. by exists u.
Qed.

(** The theorem on a session whose page shows no cookie at all. *)
Lemma collector_reports_success_for_invalid_cookies_witness :
  ∃ stats,
    (main {| initOutcome := Cli.InitOk;
             page := {| navigation := Returned (); firstCookies := Returned [];
                        apiRequest := Threw "net::ERR_FAILED"; updatedCookies := Returned [] |};
             saved := false; closeOutcome := Returned () |}).1 !! 0%nat =
      Some (Collected ∅ (validateCookies ∅) stats) ∧
    statsIsValid stats = false.
Proof.
  destruct (collector_reports_success_for_invalid_cookies
    {| initOutcome := Cli.InitOk;
       page := {| navigation := Returned (); firstCookies := Returned [];
                  apiRequest := Threw "net::ERR_FAILED"; updatedCookies := Returned [] |};
       saved := false; closeOutcome := Returned () |} ∅ eq_refl eq_refl)
    as (stats & Hfirst & _ & Hvalid & _).
  exists stats. split; [exact Hfirst | exact Hvalid].
Defined.

End CookieCollectorFacts.

(** ** metadata.json *)

Module MetadataFacts.
Import Js Calendar PuppeteerParser Metadata Scenarios.

Lemma truthy_string_app a b : truthy_string (a +:+ b) = truthy_string a || truthy_string b.
Proof. destruct a; [done|]. done. Qed.

Lemma toISOString_truthy ms : truthy_string (toISOString ms) = true.
Proof.
  unfold toISOString. destruct (civil_from_days _) as [[y m] d]. cbv zeta.
  rewrite truthy_string_app. apply orb_true_iff. by right.
Qed.

Example toISOString_noon : toISOString noon_2025_06_15 = "2025-06-15T12:00:00.000Z".
Proof. by vm_compute. Qed.

Example toISOString_before_the_year_0 :
  toISOString (parseISODate (-1, 12, 31) + 86399999) = "-000001-12-31T23:59:59.999Z".
Proof. by vm_compute. Qed.

(** A run ends by writing metadata.json, and [getStats] on the file it
    wrote gives back the number of documents that the run returned and the
    time of the write, also for a run that saved nothing (the count is then
    the 0 that [getStats] falls back to). *)
Theorem getStats_reads_back_the_run (env : Env) (startDate endDate maxPages : Z) :
  let st := processDateRange env startDate endDate maxPages in
  ∃ processed_at,
    last (trace st) = Some (EvWriteMetadata processed_at (length (results st)) (results st)) ∧
    getStats (FileText (Returned (metadataJson processed_at (length (results st)) (results st)))) =
      Returned {| total_documents := JNumber (Z.of_nat (length (results st)));
                  last_update := JString (toISOString processed_at) |}.
Proof.
  intros st. subst st. unfold processDateRange. cbv zeta.
  set (st1 := datesLoop env maxPages endDate startDate _).
  exists (clock env (length (trace st1))). cbn [emit trace results]. split.
  - by rewrite last_snoc.
  - unfold getStats, metadataJson. cbn [existsSync negb readAndParse].
    cbn [mbind completion_bind mret completion_ret getProp try_catch].
    change (field "total_documents" _) with (Some (JNumber (Z.of_nat (length (results st1))))).
    change (field "processed_at" _)
      with (Some (JString (toISOString (clock env (length (trace st1)))))).
    cbn [or_json truthy_json]. rewrite toISOString_truthy.
    by destruct (Z.of_nat (length (results st1)) =? 0) eqn:Hz;
      [apply Z.eqb_eq in Hz; rewrite Hz|].
Qed.

End MetadataFacts.
